(** * hutch_python: namespace construction

    A shallow embedding of [hutch_python/namespace.py] and of the helpers of
    [hutch_python/utils.py] it relies on, with the properties of the
    composite expansion, of the type-filtered namespace and of the metadata
    tree that the specification states. *)

From Stdlib Require Import List String Ascii Bool Arith ZArith Lia.
Import ListNotations.
Local Open Scope string_scope.
Local Open Scope list_scope.

Set Warnings "-register-all".

(* ================================================================== *)
(** ** Python strings *)

Module PyStr.

(** [x in chars] for a character. *)
Fixpoint mem_ascii (c : ascii) (chars : list ascii) : bool :=
  match chars with
  | [] => false
  | d :: rest => Ascii.eqb c d || mem_ascii c rest
  end.

Fixpoint dropwhile (p : ascii -> bool) (l : list ascii) : list ascii :=
  match l with
  | [] => []
  | c :: rest => if p c then dropwhile p rest else l
  end.

Definition lstrip_chars (chars l : list ascii) : list ascii :=
  dropwhile (fun c => mem_ascii c chars) l.

Definition rstrip_chars (chars l : list ascii) : list ascii :=
  rev (dropwhile (fun c => mem_ascii c chars) (rev l)).

(** [s.strip(chars)]: the characters of [chars] are a set; every leading and
    every trailing character of [s] that belongs to it is removed. *)
Definition strip (s chars : string) : string :=
  let cs := list_ascii_of_string chars in
  string_of_list_ascii
    (rstrip_chars cs (lstrip_chars cs (list_ascii_of_string s))).

(** [s.startswith(p)]. *)
Definition startswith (s p : string) : bool := String.prefix p s.

(** [sub in s]. *)
Fixpoint contains (sub s : string) : bool :=
  String.prefix sub s ||
  match s with
  | EmptyString => false
  | String _ rest => contains sub rest
  end.

(** [s[n:]]. *)
Fixpoint drop (n : nat) (s : string) : string :=
  match n, s with
  | O, _ => s
  | S _, EmptyString => EmptyString
  | S m, String _ rest => drop m rest
  end.

(** [s.split(sep)] for a one-character separator: the result is never empty. *)
Fixpoint split (sep : ascii) (s : string) : list string :=
  match s with
  | EmptyString => [EmptyString]
  | String c rest =>
      if Ascii.eqb c sep then EmptyString :: split sep rest
      else match split sep rest with
           | [] => [String c EmptyString]
           | w :: ws => String c w :: ws
           end
  end.

(** [sep.join(parts)]. *)
Definition join (sep : string) (parts : list string) : string :=
  String.concat sep parts.

Definition lower_ascii (c : ascii) : ascii :=
  let n := nat_of_ascii c in
  if Nat.leb 65 n && Nat.leb n 90 then ascii_of_nat (n + 32) else c.

(** [s.lower()], on ASCII letters. *)
Fixpoint lower (s : string) : string :=
  match s with
  | EmptyString => EmptyString
  | String c rest => String (lower_ascii c) (lower rest)
  end.

End PyStr.

(* ================================================================== *)
(** ** Exceptions, outcomes and the effect trace *)

Inductive exn : Type :=
| ImportError
| AttributeError
| TypeError
| ValueError
| NameError
| SyntaxError
| IndexError
| OtherException (tag : string)
| SystemExit
| KeyboardInterrupt.

(** [isinstance(e, Exception)]: what [except Exception] catches. *)
Definition is_Exception (e : exn) : bool :=
  match e with
  | SystemExit | KeyboardInterrupt => false
  | _ => true
  end.

(** [isinstance(e, ImportError)]: what [except ImportError] catches. *)
Definition is_ImportError (e : exn) : bool :=
  match e with
  | ImportError => true
  | _ => false
  end.

(** The ways a call can end.  [OutOfFuel] is the recursion budget of the
    model running out; [Unmodelled] marks the one place where the code goes
    on working on an attribute store this development does not represent. *)
Inductive outcome (A : Type) : Type :=
| Returns (a : A)
| Raises (e : exn)
| OutOfFuel
| Unmodelled.

Arguments Returns {A} a.
Arguments Raises {A} e.
Arguments OutOfFuel {A}.
Arguments Unmodelled {A}.

Definition obind {A B : Type} (m : outcome A) (k : A -> outcome B) : outcome B :=
  match m with
  | Returns a => k a
  | Raises e => Raises e
  | OutOfFuel => OutOfFuel
  | Unmodelled => Unmodelled
  end.

Notation "x <- m ;; k" := (obind m (fun x => k))
  (at level 61, m at next level, right associativity).

Definition terminates {A : Type} (r : outcome A) : Prop :=
  (exists a, r = Returns a) \/ (exists e, r = Raises e).

(* ================================================================== *)
(** ** Dictionaries in insertion order *)

Section Dict.

Variable V : Type.

Definition dict := list (string * V).

Fixpoint lookup (d : dict) (k : string) : option V :=
  match d with
  | [] => None
  | (k', v) :: rest => if String.eqb k k' then Some v else lookup rest k
  end.

(** [k in d]. *)
Definition mem (d : dict) (k : string) : bool :=
  match lookup d k with
  | Some _ => true
  | None => false
  end.

(** [d[k] = v]: an existing key keeps its position, a new key goes last. *)
Fixpoint dict_set (d : dict) (k : string) (v : V) : dict :=
  match d with
  | [] => [(k, v)]
  | (k', v') :: rest =>
      if String.eqb k k' then (k', v) :: rest
      else (k', v') :: dict_set rest k v
  end.

Definition keys (d : dict) : list string := map fst d.
Definition values (d : dict) : list V := map snd d.

(** A Python dict holds each key once. *)
Definition is_dict (d : dict) : Prop := NoDup (keys d).

End Dict.

Arguments lookup {V} d k.
Arguments mem {V} d k.
Arguments dict_set {V} d k v.
Arguments keys {V} d.
Arguments values {V} d.
Arguments is_dict {V} d.

(* ================================================================== *)
(** ** Objects *)

(** Object identity ([id(obj)]): an index into the heap. *)
Definition oid := nat.

(** A value read from a metadata record. *)
Inductive MdVal : Type :=
| MdNone
| MdStr (s : string)
| MdOther (z : Z).

(** What the builders can observe of an object.  [obj_classes] lists the
    classes the object is an instance of ([type(obj).__mro__], by name);
    [obj_name], [obj_component_names] and [obj_md] are the attributes
    [name], [component_names] and [md] when the object has them;
    [obj_attrs] are the attributes that hold sub-objects; [obj_call] tells
    whether the class defines [__call__].  [obj_eq_key] is [None] for the
    default identity-based [__eq__]/[__hash__], and [Some k] for a class
    that compares and hashes its instances by the value [k]. *)
Record PyObj : Type := mkObj {
  obj_classes : list string;
  obj_name : option string;
  obj_component_names : option (list string);
  obj_attrs : dict oid;
  obj_md : option (dict MdVal);
  obj_call : bool;
  obj_eq_key : option Z
}.

Definition heap := list PyObj.

(** An object with no attribute at all, as [object()]. *)
Definition bare : PyObj := mkObj [] None None [] None false None.

Definition deref (h : heap) (o : oid) : PyObj := nth o h bare.

(** A value as [find_class] and the module loader see them. *)
Inductive PyVal : Type :=
| VStr (s : string)
| VType (c : string)
| VTuple (l : list PyVal)
| VObj (o : oid).

Definition Device : string := "ophyd.device.Device".
Definition FunctionType : string := "function".

Definition instance_of (ob : PyObj) (c : string) : bool :=
  existsb (String.eqb c) (obj_classes ob).

(** [inspect.isfunction(obj)]: [isinstance(obj, types.FunctionType)]. *)
Definition isfunction (ob : PyObj) : bool := instance_of ob FunctionType.

(** [isinstance(obj, cls)]: [cls] is a type or a tuple of such, tried from
    left to right.  A string is a [TypeError], and so is an object of the
    heap: those are plain instances (numbers, devices, functions), whose
    class has no [__instancecheck__] and which have no [__bases__]. *)
Fixpoint isinstance (ob : PyObj) (cls : PyVal) : outcome bool :=
  match cls with
  | VType c => Returns (instance_of ob c)
  | VTuple l =>
      (fix any (l : list PyVal) : outcome bool :=
         match l with
         | [] => Returns false
         | c :: rest =>
             b <- isinstance ob c ;;
             if b then Returns true else any rest
         end) l
  | VStr _ => Raises TypeError
  | VObj _ => Raises TypeError
  end.

(** [a == b] as set membership applies it: the same object, or objects that
    compare equal. *)
Definition py_eq (h : heap) (a b : oid) : bool :=
  Nat.eqb a b ||
  match obj_eq_key (deref h a), obj_eq_key (deref h b) with
  | Some x, Some y => Z.eqb x y
  | _, _ => false
  end.

(* ================================================================== *)
(** ** Effects: the log, imports and evaluation *)

Inductive level : Type := DEBUG | INFO | WARNING | ERROR.

Inductive event : Type :=
| Log (lvl : level) (msg : string)
| LogExc (lvl : level) (e : exn)
| Import (name : string)
| Eval (src : string)
| Call (f : PyVal).

Definition is_error (ev : event) : bool :=
  match ev with
  | Log ERROR _ => true
  | LogExc ERROR _ => true
  | _ => false
  end.

Definition errors_logged (t : list event) : nat :=
  List.length (filter is_error t).

(** A computation that appends to the trace of events and ends in an
    outcome. *)
Definition M (A : Type) : Type := list event -> outcome A * list event.

Definition ret {A : Type} (a : A) : M A := fun t => (Returns a, t).

Definition mbind {A B : Type} (m : M A) (k : A -> M B) : M B :=
  fun t =>
    match m t with
    | (Returns a, t') => k a t'
    | (Raises e, t') => (Raises e, t')
    | (OutOfFuel, t') => (OutOfFuel, t')
    | (Unmodelled, t') => (Unmodelled, t')
    end.

Definition emit (ev : event) : M unit := fun t => (Returns tt, t ++ [ev]).

Definition lift {A : Type} (r : outcome A) : M A := fun t => (r, t).

Notation "x <~ m ;; k" := (mbind m (fun x => k))
  (at level 61, m at next level, right associativity).
Notation "m ;;; k" := (mbind m (fun _ => k))
  (at level 61, right associativity).

(** [try: body except <catches> as e: handler e]. *)
Definition try_except {A : Type} (body : M A) (catches : exn -> bool)
  (handler : exn -> M A) : M A :=
  fun t =>
    match body t with
    | (Raises e, t') => if catches e then handler e t' else (Raises e, t')
    | r => r
    end.

(** The value of [__all__] as the loop [for attr in all_kwd] meets it: the
    items it yields, of whatever kind, or a value that cannot be iterated. *)
Inductive AllKwd : Type :=
| Iterable (items : list PyVal)
| NotIterable.

(** A module object: [__all__] when defined and not [None], what
    [dir(module)] lists, and the attributes [getattr] finds in the namespace
    of the module. *)
Record PyModule : Type := mkModule {
  mod_all : option AllKwd;
  mod_dir : list string;
  mod_attrs : dict PyVal
}.

(** The interpreter services the helpers call. *)
Record Interp : Type := mkInterp {
  import_module : string -> outcome PyModule;
  py_eval : string -> outcome PyVal;
  py_call : PyVal -> outcome PyVal
}.

(* ================================================================== *)
(** ** hutch_python/utils.py *)

Module Utils.

Section WithInterp.

Variable I : Interp.

(** [importlib.import_module(name)]. *)
Definition do_import (name : string) : M PyModule :=
  emit (Import name) ;;; lift (import_module I name).

(** [eval(src)]. *)
Definition do_eval (src : string) : M PyVal :=
  emit (Eval src) ;;; lift (py_eval I src).

(** [f()]. *)
Definition do_call (f : PyVal) : M PyVal :=
  emit (Call f) ;;; lift (py_call I f).

(** [getattr(module, name)]. *)
Definition module_getattr (m : PyModule) (name : string) : outcome PyVal :=
  match lookup (mod_attrs m) name with
  | Some v => Returns v
  | None => Raises AttributeError
  end.

Definition find_object (obj_path : string) : M PyVal :=
  let parts := PyStr.split "." obj_path in
  let module_path := PyStr.join "." (removelast parts) in
  let class_name := last parts "" in
  module <~ do_import module_path ;;
  lift (module_getattr module class_name).

Definition find_class (class_path : string) : M PyVal :=
  if PyStr.contains "." class_path then find_object class_path
  else do_eval class_path.

(** The module name [extract_objs] works with after its first lines, and
    whether the object found is to be called. *)
Definition import_target (module_name : string) : string * bool :=
  let module_name := PyStr.strip module_name ".py" in
  if PyStr.contains "()" module_name
  then (PyStr.strip module_name "()", true)
  else (module_name, false).

(** [[a for a in names if a[0] != '_']]: [a[0]] of an empty name is an
    [IndexError]. *)
Fixpoint public_names (names : list string) : outcome (list string) :=
  match names with
  | [] => Returns []
  | a :: rest =>
      match a with
      | EmptyString => Raises IndexError
      | String c _ =>
          tl <- public_names rest ;;
          Returns (if Ascii.eqb c "_" then tl else a :: tl)
      end
  end.

(** [for attr in all_kwd: objs[attr] = getattr(module, attr)]; [getattr]
    refuses a name that is not a string with a [TypeError]. *)
Fixpoint collect_attrs (m : PyModule) (all_kwd : list PyVal)
  (objs : dict PyVal) : outcome (dict PyVal) :=
  match all_kwd with
  | [] => Returns objs
  | VStr attr :: rest =>
      obj <- module_getattr m attr ;;
      collect_attrs m rest (dict_set objs attr obj)
  | _ :: _ => Raises TypeError
  end.

(** The two nested [try] blocks of [extract_objs]: [inl] is the module the
    function goes on with, [inr] the dictionary it returns at once. *)
Definition load_target (module_name : string) (call_me : bool)
  : M (PyModule + dict PyVal) :=
  let objs : dict PyVal := [] in
  try_except
    (try_except
       (module <~ do_import module_name ;; ret (inl module))
       is_ImportError
       (fun _ =>
          my_obj <~ find_object module_name ;;
          let name := last (PyStr.split "." module_name) "" in
          if call_me
          then (v <~ do_call my_obj ;; ret (inr (dict_set objs name v)))
          else ret (inr (dict_set objs name my_obj))))
    is_Exception
    (fun _ =>
       emit (Log ERROR ("Error loading " ++ module_name)) ;;;
       ret (inr objs)).

Definition extract_objs (module_name : string) : M (dict PyVal) :=
  let objs : dict PyVal := [] in
  let '(module_name, call_me) := import_target module_name in
  r <~ load_target module_name call_me ;;
  match r with
  | inr objs => ret objs
  | inl module =>
      all_kwd <~ match mod_all module with
                 | Some (Iterable items) => ret items
                 | Some NotIterable => lift (Raises TypeError)
                 | None =>
                     lift (names <- public_names (mod_dir module) ;;
                           Returns (map VStr names))
                 end ;;
      lift (collect_attrs module all_kwd objs)
  end.

End WithInterp.

(** Modelled from the spec: [strip_prefix], which [namespace.py] imports from
    [utils] and whose definition is not in the sources at hand.  It strips
    the consumed key's textual prefix, together with the separator that
    follows it, from the candidate leaf name ([tst_det_1] without [tst] is
    [det_1], and [det_1] without [det] is [1]); a name that does not start
    with the key passes through unchanged. *)
Definition strip_prefix (name strip_text : string) : string :=
  if PyStr.startswith name strip_text
  then PyStr.drop (String.length strip_text + 1) name
  else name.

(** Modelled from the spec: [IterableNamespace], which [namespace.py] imports
    from [utils] and whose definition is not in the sources at hand: an
    attribute-accessible container, one store of bindings read both by
    attribute name and by iteration over the values in the order they were
    set.  An attribute holds an object of the pool or a nested namespace. *)
Inductive NsItem : Type :=
| Obj (o : oid)
| Space (items : list (string * NsItem)).

Definition IterableNamespace := dict NsItem.

Definition ns_setattr (ns : IterableNamespace) (name : string) (v : NsItem)
  : IterableNamespace := dict_set ns name v.

Definition ns_hasattr (ns : IterableNamespace) (name : string) : bool :=
  mem ns name.

Definition ns_getattr (ns : IterableNamespace) (name : string) : option NsItem :=
  lookup ns name.

Definition ns_iter (ns : IterableNamespace) : list NsItem := values ns.

End Utils.

(* ================================================================== *)
(** ** hutch_python/namespace.py *)

Module Namespace.

Import Utils.

(** The resolved scope: the bindings [extract_objs(scope=..., stack_offset=1)]
    hands to the builders. *)
Definition Scope := dict oid.

(** The identity cache, a Python [set] of objects. *)
Definition Cache := list oid.

Section WithHeap.

Variable h : heap.

(** [obj in cache]. *)
Definition in_cache (obj : oid) (cache : Cache) : bool :=
  existsb (py_eq h obj) cache.

(** [getattr(obj, 'component_names', [])]. *)
Definition component_names (obj : oid) : list string :=
  match obj_component_names (deref h obj) with
  | Some l => l
  | None => []
  end.

(** [getattr(obj, comp_name)]. *)
Definition getattr (obj : oid) (comp_name : string) : outcome oid :=
  match lookup (obj_attrs (deref h obj)) comp_name with
  | Some sub => Returns sub
  | None => Raises AttributeError
  end.

(** [if obj.name not in scope_objs: scope_objs[obj.name] = obj]. *)
Definition bind_name (obj : oid) (scope_objs : Scope) : outcome Scope :=
  match obj_name (deref h obj) with
  | None => Raises AttributeError
  | Some n => Returns (if mem scope_objs n then scope_objs
                       else dict_set scope_objs n obj)
  end.

(** [for comp_name in getattr(obj, 'component_names', []):
       sub_obj = getattr(obj, comp_name)
       accumulate(sub_obj, scope_objs, cache)],
    with [rec] for the recursive call. *)
Fixpoint components (rec : oid -> Scope * Cache -> outcome (Scope * Cache))
  (obj : oid) (comps : list string) (st : Scope * Cache)
  : outcome (Scope * Cache) :=
  match comps with
  | [] => Returns st
  | comp_name :: rest =>
      sub_obj <- getattr obj comp_name ;;
      st' <- rec sub_obj st ;;
      components rec obj rest st'
  end.

(** The helper [accumulate] of [class_namespace].  [scope_objs] and [cache]
    are mutated in place by the code and are threaded here; each call of the
    helper spends one unit of [fuel]. *)
Fixpoint accumulate (fuel : nat) (obj : oid) (st : Scope * Cache)
  : outcome (Scope * Cache) :=
  match fuel with
  | O => OutOfFuel
  | S fuel' =>
      if in_cache obj (snd st) then Returns st
      else
        st2 <- components (accumulate fuel') obj (component_names obj)
                 (fst st, obj :: snd st) ;;
        scope_objs <- bind_name obj (fst st2) ;;
        Returns (scope_objs, snd st2)
  end.

(** [for name, obj in scope_objs.copy().items():
       if isinstance(obj, Device): accumulate(obj, scope_objs, cache)]. *)
Fixpoint expand_items (fuel : nat) (items : list (string * oid))
  (st : Scope * Cache) : outcome (Scope * Cache) :=
  match items with
  | [] => Returns st
  | (_, obj) :: rest =>
      st' <- (if instance_of (deref h obj) Device
              then accumulate fuel obj st else Returns st) ;;
      expand_items fuel rest st'
  end.

(** The composite expansion of a pool, with a fresh cache. *)
Definition expand (fuel : nat) (scope_objs : Scope) : outcome Scope :=
  st <- expand_items fuel scope_objs (scope_objs, []) ;;
  Returns (fst st).

(** The recursion budget no expansion over [h] exhausts. *)
Definition enough_fuel : nat := S (List.length h).

(** [cls == 'function']. *)
Definition is_function_marker (cls : PyVal) : bool :=
  match cls with
  | VStr s => String.eqb s "function"
  | _ => false
  end.

(** The test of the last loop of [class_namespace] on one object. *)
Definition include (cls : PyVal) (obj : oid) : outcome bool :=
  if is_function_marker cls then Returns (isfunction (deref h obj))
  else isinstance (deref h obj) cls.

(** [for name, obj in scope_objs.items(): ...] of [class_namespace]. *)
Fixpoint select (cls : PyVal) (items : list (string * oid))
  (class_space : IterableNamespace) : M IterableNamespace :=
  match items with
  | [] => ret class_space
  | (name, obj) :: rest =>
      inc <~ lift (include cls obj) ;;
      if inc
      then emit (Log DEBUG ("Include " ++ name ++ " in cls=%s namespace")) ;;;
           select cls rest (ns_setattr class_space name (Obj obj))
      else select cls rest class_space
  end.

Variable I : Interp.

(** The resolution of a [cls] given as a string: [None] stands for the early
    [return class_space]. *)
Definition resolve_cls (cls : PyVal) : M (option PyVal) :=
  match cls with
  | VStr s =>
      if String.eqb s "function" then ret (Some cls)
      else
        try_except
          (c <~ find_class I s ;; ret (Some c))
          is_Exception
          (fun exc =>
             emit (Log ERROR ("Type " ++ s ++ " could not be loaded")) ;;;
             emit (LogExc DEBUG exc) ;;;
             ret None)
  | _ => ret (Some cls)
  end.

Definition class_namespace (fuel : nat) (cls : PyVal) (scope_objs : Scope)
  : M IterableNamespace :=
  emit (Log DEBUG "Create class_namespace cls=%s, scope=%s") ;;;
  let class_space : IterableNamespace := [] in
  r <~ resolve_cls cls ;;
  match r with
  | None => ret class_space
  | Some cls =>
      scope_objs <~ lift (expand fuel scope_objs) ;;
      select cls scope_objs class_space
  end.

(** The keys [metadata_namespace] derives for one binding: [None] stands for
    the [continue] of a name without separator. *)
Definition raw_keys (md : list string) (name : string) (obj : oid)
  : option (list MdVal) :=
  match obj_md (deref h obj) with
  | Some record =>
      Some (map (fun filt => match lookup record filt with
                             | Some v => v
                             | None => MdNone
                             end) md)
  | None =>
      if negb (PyStr.contains "_" name) then None
      else Some (map MdStr (firstn (List.length md) (PyStr.split "_" name)))
  end.

(** [key.lower()] for a string key, the key itself otherwise. *)
Definition lower_key (key : MdVal) : MdVal :=
  match key with
  | MdStr s => MdStr (PyStr.lower s)
  | _ => key
  end.

(** The walk down the tree and the final [setattr(upper_space, name, obj)].
    A key that is neither a string nor [None] is refused by [hasattr] with a
    [TypeError].  When [getattr(upper_space, key)] is an object of the pool
    and not a namespace, the code goes on with that object's own attributes:
    [Unmodelled]. *)
Fixpoint place (upper_space : IterableNamespace) (keys : list MdVal)
  (name : string) (obj : oid) : outcome IterableNamespace :=
  match keys with
  | [] => Returns (ns_setattr upper_space name (Obj obj))
  | MdNone :: _ => Returns (ns_setattr upper_space name (Obj obj))
  | MdOther _ :: _ => Raises TypeError
  | MdStr key :: rest =>
      let name := strip_prefix name key in
      let upper_space :=
        if ns_hasattr upper_space key then upper_space
        else ns_setattr upper_space key (Space []) in
      match ns_getattr upper_space key with
      | Some (Space sub) =>
          sub' <- place sub rest name obj ;;
          Returns (ns_setattr upper_space key (Space sub'))
      | Some (Obj _) => Unmodelled
      | None => Raises AttributeError
      end
  end.

(** The body of the loop of [metadata_namespace] for one binding. *)
Definition add_object (md : list string) (metadata_space : IterableNamespace)
  (name : string) (obj : oid) : M IterableNamespace :=
  match raw_keys md name obj with
  | None => ret metadata_space
  | Some [] => lift (Raises IndexError)
  | Some (MdNone :: _) => ret metadata_space
  | Some raw =>
      let keys := map lower_key raw in
      emit (Log DEBUG ("Add " ++ name ++ " to metadata namespace")) ;;;
      lift (place metadata_space keys name obj)
  end.

Fixpoint add_objects (md : list string) (items : list (string * oid))
  (metadata_space : IterableNamespace) : M IterableNamespace :=
  match items with
  | [] => ret metadata_space
  | (name, obj) :: rest =>
      metadata_space <~ add_object md metadata_space name obj ;;
      add_objects md rest metadata_space
  end.

Definition metadata_namespace (md : list string) (scope_objs : Scope)
  : M IterableNamespace :=
  emit (Log DEBUG "Create metadata_namespace md=%s, scope=%s") ;;;
  add_objects md scope_objs [].

End WithHeap.

End Namespace.

(* ================================================================== *)
(** ** hutch_python/log_setup.py: the level of the console *)

Module LogSetup.

(** [logging.DEBUG] and [logging.INFO]. *)
Definition logging_DEBUG : Z := 10.
Definition logging_INFO : Z := 20.

Definition RuntimeError : exn := OtherException "RuntimeError".

(** A handler of the root logger: its [name], [None] unless it was given
    one, and its [level]. *)
Record Handler : Type := mkHandler {
  handler_name : option string;
  handler_level : Z
}.

(** [logging.getLogger('').handlers].  The handlers are mutable objects the
    list refers to; a handler is designated by its position. *)
Definition Handlers := list Handler.

(** A computation on the handlers of the root logger. *)
Definition L (A : Type) : Type := Handlers -> outcome A * Handlers.

Definition lret {A : Type} (a : A) : L A := fun root => (Returns a, root).

Definition lbind {A B : Type} (m : L A) (k : A -> L B) : L B :=
  fun root =>
    match m root with
    | (Returns a, root') => k a root'
    | (Raises e, root') => (Raises e, root')
    | (OutOfFuel, root') => (OutOfFuel, root')
    | (Unmodelled, root') => (Unmodelled, root')
    end.

Notation "x <<- m ;; k" := (lbind m (fun x => k))
  (at level 61, m at next level, right associativity).

(** [handler.name == 'console']. *)
Definition is_console (hd : Handler) : bool :=
  match handler_name hd with
  | Some n => String.eqb n "console"
  | None => false
  end.

(** [for handler in root.handlers: if handler.name == 'console': return
    handler], then [raise RuntimeError('No console handler')]. *)
Fixpoint get_console_handler (root : Handlers) : outcome nat :=
  match root with
  | [] => Raises RuntimeError
  | hd :: rest =>
      if is_console hd then Returns 0
      else i <- get_console_handler rest ;; Returns (S i)
  end.

(** [handler.level]. *)
Definition level_of (root : Handlers) (i : nat) : Z :=
  handler_level (nth i root (mkHandler None 0)).

(** [handler.level = level]. *)
Fixpoint set_level (root : Handlers) (i : nat) (level : Z) : Handlers :=
  match root, i with
  | [], _ => []
  | hd :: rest, O => mkHandler (handler_name hd) level :: rest
  | hd :: rest, S j => hd :: set_level rest j level
  end.

Definition get_console_level : L Z :=
  fun root =>
    (handler <- get_console_handler root ;; Returns (level_of root handler),
     root).

Definition set_console_level (level : Z) : L unit :=
  fun root =>
    match get_console_handler root with
    | Returns handler => (Returns tt, set_level root handler level)
    | Raises e => (Raises e, root)
    | OutOfFuel => (OutOfFuel, root)
    | Unmodelled => (Unmodelled, root)
    end.

(** [debug_mode(debug)]: [None] asks, [True] and [False] set; the function
    returns a value only when it is asked. *)
Definition debug_mode (debug : option bool) : L (option bool) :=
  match debug with
  | None =>
      level <<- get_console_level ;;
      lret (Some (Z.leb level logging_DEBUG))
  | Some true =>
      _ <<- set_console_level logging_DEBUG ;; lret None
  | Some false =>
      _ <<- set_console_level logging_INFO ;; lret None
  end.

(** [with debug_context(): body].  The generator runs up to its [yield], then
    the body runs, and the generator is resumed after the [yield] only when
    the body returned: an exception of the body is thrown into the generator
    at the [yield], which no [try] surrounds, and leaves it at once. *)
Definition debug_context {A : Type} (body : L A) : L A :=
  old_level <<- get_console_level ;;
  _ <<- debug_mode (Some true) ;;
  r <<- body ;;
  _ <<- set_console_level old_level ;;
  lret r.

(** [debug_wrapper(f, *args, **kwargs)], with [f] applied to its arguments
    for body: what [f] returns is dropped. *)
Definition debug_wrapper {A : Type} (f : L A) : L unit :=
  _ <<- debug_context f ;; lret tt.

End LogSetup.

(* ================================================================== *)
(** ** Vocabulary of the properties *)

Import Utils Namespace.

(** The sub-objects an object lists as its components. *)
Definition children (h : heap) (obj : oid) : list oid :=
  flat_map (fun comp_name =>
              match lookup (obj_attrs (deref h obj)) comp_name with
              | Some sub => [sub]
              | None => []
              end) (component_names h obj).

(** [reachable h x y]: [y] is [x] or a component of [x], at any depth. *)
Inductive reachable (h : heap) : oid -> oid -> Prop :=
| reach_here : forall x, reachable h x x
| reach_child : forall x y z,
    In y (children h x) -> reachable h y z -> reachable h x z.

(** The objects an expansion of the pool [s] is about: those reachable from
    a [Device] the pool binds. *)
Definition involved (h : heap) (s : Scope) (o : oid) : Prop :=
  exists n d, lookup s n = Some d /\
              instance_of (deref h d) Device = true /\ reachable h d o.

(** The object appears in the pool under exactly one name. *)
Definition appears_once (s : Scope) (o : oid) : Prop :=
  exists n, lookup s n = Some o /\ forall n', lookup s n' = Some o -> n' = n.

(** Some object of the heap has the canonical name [n]. *)
Definition names_object (h : heap) (n : string) : bool :=
  existsb (fun ob => match obj_name ob with
                     | Some m => String.eqb m n
                     | None => false
                     end) h.

(** Every object of the pool that has a canonical name is bound under it,
    and an object without one is not bound under the canonical name of an
    object of the heap. *)
Definition canonical (h : heap) (s : Scope) : bool :=
  forallb (fun p => match obj_name (deref h (snd p)) with
                    | Some n => String.eqb n (fst p)
                    | None => negb (names_object h (fst p))
                    end) s.

Definition same_name (h : heap) (a b : oid) : bool :=
  match obj_name (deref h a), obj_name (deref h b) with
  | Some n, Some m => String.eqb n m
  | _, _ => false
  end.

(** Two objects of the heap never share a canonical name. *)
Definition distinct_names (h : heap) : bool :=
  let ids := seq 0 (List.length h) in
  forallb (fun a => forallb (fun b => Nat.eqb a b || negb (same_name h a b)) ids)
          ids.

(** Every object of the heap has the default, identity-based equality. *)
Definition default_eq (h : heap) : bool :=
  forallb (fun ob => match obj_eq_key ob with
                     | None => true
                     | Some _ => false
                     end) h.

(** The objects of the heap a cache does not hold yet. *)
Definition unvisited (h : heap) (cache : Cache) : nat :=
  List.length (filter (fun o => negb (in_cache h o cache))
                      (seq 0 (List.length h))).

(** The successful runs of [accumulate] and of its loop over the
    components, as derivations. *)
Inductive acc_run (h : heap) : oid -> Scope * Cache -> Scope * Cache -> Prop :=
| acc_skip : forall obj st,
    in_cache h obj (snd st) = true ->
    acc_run h obj st st
| acc_visit : forall obj st st2 scope_objs,
    in_cache h obj (snd st) = false ->
    comps_run h obj (component_names h obj) (fst st, obj :: snd st) st2 ->
    bind_name h obj (fst st2) = Returns scope_objs ->
    acc_run h obj st (scope_objs, snd st2)
with comps_run (h : heap)
  : oid -> list string -> Scope * Cache -> Scope * Cache -> Prop :=
| comps_done : forall obj st, comps_run h obj [] st st
| comps_next : forall obj comp_name rest sub_obj st st1 st2,
    getattr h obj comp_name = Returns sub_obj ->
    acc_run h sub_obj st st1 ->
    comps_run h obj rest st1 st2 ->
    comps_run h obj (comp_name :: rest) st st2.

Scheme acc_run_mut := Minimality for acc_run Sort Prop
  with comps_run_mut := Minimality for comps_run Sort Prop.
Combined Scheme acc_comps_ind from acc_run_mut, comps_run_mut.

(** The successful runs of the loop of [expand]. *)
Inductive items_run (h : heap)
  : list (string * oid) -> Scope * Cache -> Scope * Cache -> Prop :=
| items_done : forall st, items_run h [] st st
| items_device : forall name obj rest st st1 st2,
    instance_of (deref h obj) Device = true ->
    acc_run h obj st st1 ->
    items_run h rest st1 st2 ->
    items_run h ((name, obj) :: rest) st st2
| items_other : forall name obj rest st st2,
    instance_of (deref h obj) Device = false ->
    items_run h rest st st2 ->
    items_run h ((name, obj) :: rest) st st2.

(** What a run leaves of the state it starts from: the pool and the cache
    are extended, every binding added is that of a cached object under its
    canonical name, and a pool with one binding per name stays so. *)
Definition extends (h : heap) (st st' : Scope * Cache) : Prop :=
  (exists added, fst st' = fst st ++ added /\
     forall n o, In (n, o) added ->
       obj_name (deref h o) = Some n /\ In o (snd st')) /\
  (exists new, snd st' = new ++ snd st) /\
  (is_dict (fst st) -> is_dict (fst st')).

(** An object the expansion is done with: its canonical name is bound in the
    pool and its components are in the cache. *)
Definition settled (h : heap) (st : Scope * Cache) (x : oid) : Prop :=
  (exists n, obj_name (deref h x) = Some n /\ mem (fst st) n = true) /\
  (forall y, In y (children h x) -> in_cache h y (snd st) = true).

(** Example heaps.  A composite: an instance of [Device] with a canonical
    name and its components. *)
Definition device (name : string) (comps : dict oid) : PyObj :=
  mkObj [Device; "object"] (Some name) (Some (keys comps)) comps None false None.

(** Object 0 lists object 1 as a component, and object 1 lists object 0. *)
Definition cycle_heap : heap :=
  [device "a" [("b", 1)]; device "b" [("a", 0)]].

(** A leaf object whose class compares and hashes its instances by value. *)
Definition valued (name : string) (k : Z) : PyObj :=
  mkObj ["object"] (Some name) None [] None false (Some k).

(** Object 0 is a composite of objects 1 and 2, which are distinct and
    compare equal. *)
Definition twins_heap : heap :=
  [device "d" [("x", 1); ("y", 2)]; valued "x" 7; valued "y" 7].

(** The cache holds the object, or an object that compares equal to it. *)
Definition equal_cached (h : heap) (obj : oid) (cache : Cache) : Prop :=
  exists x, In x cache /\
    (x = obj \/
     exists k, obj_eq_key (deref h obj) = Some k /\
               obj_eq_key (deref h x) = Some k).

(** Object 0 is a plain function; object 1 is an instance of a class that
    defines [__call__]. *)
Definition functions_heap : heap :=
  [mkObj [FunctionType; "object"] None None [] None true None;
   mkObj ["Caller"; "object"] None None [] None true None].

(** Object 0 is a plain function; object 1 is the integer [42]. *)
Definition literal_heap : heap :=
  [mkObj [FunctionType; "object"] None None [] None true None;
   mkObj ["int"; "object"] None None [] None false (Some 42%Z)].

(** Object 0 carries a metadata record whose field [beamline] is [MFX]. *)
Definition metadata_heap : heap :=
  [mkObj ["object"] None None [] (Some [("beamline", MdStr "MFX")]) false None].

(** The string keys a walk consumes: those before the first key that is not
    a string. *)
Fixpoint key_path (keys : list MdVal) : list string :=
  match keys with
  | MdStr k :: rest => k :: key_path rest
  | _ => []
  end.

(** The namespace a path of attribute names leads to. *)
Fixpoint walk (ns : IterableNamespace) (path : list string)
  : option IterableNamespace :=
  match path with
  | [] => Some ns
  | k :: rest =>
      match ns_getattr ns k with
      | Some (Space sub) => walk sub rest
      | _ => None
      end
  end.

(** The name that is left once the consumed keys were stripped in turn. *)
Definition leaf_name (name : string) (path : list string) : string :=
  fold_left strip_prefix path name.

(** The flat namespace that binds the given pairs. *)
Definition flat (items : list (string * oid)) : IterableNamespace :=
  map (fun p => (fst p, Obj (snd p))) items.

(** Resolution of the class path fails with an exception that
    [except Exception] catches. *)
Definition unresolvable (I : Interp) (class_path : string) : Prop :=
  exists e, fst (find_class I class_path []) = Raises e /\
            is_Exception e = true.

(** The computation reads nothing of the trace it appends to. *)
Definition oblivious {A : Type} (m : M A) : Prop :=
  forall t, m t = (fst (m []), t ++ snd (m [])).

(** The characters [strip('.py')] removes. *)
Definition py_chars : list ascii := list_ascii_of_string ".py".

Definition in_py_chars (c : ascii) : Prop := PyStr.mem_ascii c py_chars = true.



(** The number of namespace levels of a value: none for an object of the
    pool, one more than its deepest attribute for a namespace. *)
Fixpoint levels (v : NsItem) : nat :=
  match v with
  | Obj _ => 0
  | Space items =>
      S ((fix deepest (l : list (string * NsItem)) : nat :=
            match l with
            | [] => 0
            | p :: rest => Nat.max (levels (snd p)) (deepest rest)
            end) items)
  end.

(** The number of namespace levels below the root of a tree. *)
Fixpoint depth (ns : IterableNamespace) : nat :=
  match ns with
  | [] => 0
  | p :: rest => Nat.max (levels (snd p)) (depth rest)
  end.

(** The binding is one the metadata build can classify at all: its object
    has a metadata record, or its name holds the separator. *)
Definition classifiable (h : heap) (p : string * oid) : bool :=
  match obj_md (deref h (snd p)) with
  | Some _ => true
  | None => PyStr.contains "_" (fst p)
  end.

(** The binding is one the metadata build passes over, [field] being the
    first field asked for: the record of its object has no value or [None]
    for the field, or the object has no record and its name does not hold
    the separator. *)
Definition passed_over (h : heap) (field : string) (p : string * oid) : bool :=
  match obj_md (deref h (snd p)) with
  | Some record =>
      match lookup record field with
      | None | Some MdNone => true
      | Some _ => false
      end
  | None => negb (PyStr.contains "_" (fst p))
  end.

(** What [extract_objs] does once the import raised [ImportError]: the
    handler of the inner [try] of [load_target]. *)
Definition load_fallback (I : Interp) (module_name : string) (call_me : bool)
  : M (PyModule + dict PyVal) :=
  my_obj <~ find_object I module_name ;;
  let name := last (PyStr.split "." module_name) "" in
  if call_me
  then (v <~ do_call I my_obj ;; ret (inr (dict_set [] name v)))
  else ret (inr (dict_set [] name my_obj)).

(** [a[0] != '_'] for a name that is not empty. *)
Definition public (a : string) : bool :=
  match a with
  | EmptyString => false
  | String c _ => negb (Ascii.eqb c "_")
  end.

(** The item of [__all__] is the name [a]. *)
Definition names_item (a : string) (v : PyVal) : bool :=
  match v with
  | VStr s => String.eqb a s
  | _ => false
  end.

(** The item of [__all__] is a string. *)
Definition is_name (v : PyVal) : bool :=
  match v with
  | VStr _ => true
  | _ => false
  end.

(** The names [extract_objs] collects from a module. *)
Definition listed (m : PyModule) (a : string) : bool :=
  match mod_all m with
  | Some (Iterable items) => existsb (names_item a) items
  | Some NotIterable => false
  | None => existsb (String.eqb a) (mod_dir m) && public a
  end.

(** An interpreter that knows the module [lib.mod], whose attributes are
    [Thing] and [_hidden], and nothing else. *)
Definition one_module : Interp :=
  mkInterp
    (fun name =>
       if String.eqb name "lib.mod"
       then Returns (mkModule None ["Thing"; "_hidden"]
                       [("Thing", VType "lib.mod.Thing"); ("_hidden", VObj 0)])
       else if String.eqb name "" then Raises ValueError
       else Raises ImportError)
    (fun _ => Raises NameError)
    (fun _ => Raises TypeError).

(** A root logger with a file handler at [DEBUG] and the console handler at
    [INFO]. *)
Definition two_handlers : LogSetup.Handlers :=
  [LogSetup.mkHandler (Some "debug") 10; LogSetup.mkHandler (Some "console") 20].

(** A root logger without console handler. *)
Definition no_console : LogSetup.Handlers :=
  [LogSetup.mkHandler (Some "debug") 10; LogSetup.mkHandler None 0].

(* ================================================================== *)
(** ** Dictionaries *)

Section DictFacts.

Variable V : Type.
Implicit Types (d : dict V) (k : string) (v : V).

Lemma lookup_app d d' k :
  lookup (d ++ d') k =
  match lookup d k with Some v => Some v | None => lookup d' k end.
Proof.
  induction d as [|[k' v'] d IH]; simpl; [reflexivity|].
  destruct (String.eqb k k'); auto.
Qed.

Lemma mem_app d d' k : mem (d ++ d') k = mem d k || mem d' k.
Proof.
  unfold mem. rewrite lookup_app. destruct (lookup d k); reflexivity.
Qed.

Lemma dict_set_fresh d k v : mem d k = false -> dict_set d k v = d ++ [(k, v)].
Proof.
  unfold mem. induction d as [|[k' v'] d IH]; simpl; [reflexivity|].
  destruct (String.eqb k k'); [discriminate|].
  intros H. rewrite IH by exact H. reflexivity.
Qed.

Lemma lookup_dict_set_same d k v : lookup (dict_set d k v) k = Some v.
Proof.
  induction d as [|[k' v'] d IH]; simpl.
  - rewrite String.eqb_refl. reflexivity.
  - destruct (String.eqb k k') eqn:E; simpl; rewrite E; auto.
Qed.

Lemma lookup_dict_set_other d k k' v :
  k <> k' -> lookup (dict_set d k v) k' = lookup d k'.
Proof.
  intros Hne. induction d as [|[k0 v0] d IH]; simpl.
  - destruct (String.eqb_spec k' k); [congruence|reflexivity].
  - destruct (String.eqb_spec k k0) as [->|Hk]; simpl.
    + destruct (String.eqb_spec k' k0); [congruence|reflexivity].
    + destruct (String.eqb k' k0); auto.
Qed.

Lemma mem_true_iff d k : mem d k = true <-> In k (keys d).
Proof.
  unfold mem, keys. induction d as [|[k' v'] d IH]; simpl.
  - split; [discriminate|tauto].
  - destruct (String.eqb_spec k k') as [->|Hne].
    + split; auto.
    + rewrite IH. split; [auto|]. intros [H|H]; [congruence|exact H].
Qed.

Lemma mem_false_iff d k : mem d k = false <-> ~ In k (keys d).
Proof.
  rewrite <- mem_true_iff. destruct (mem d k); split; congruence.
Qed.

Lemma lookup_In d k v : lookup d k = Some v -> In (k, v) d.
Proof.
  induction d as [|[k' v'] d IH]; simpl; [discriminate|].
  destruct (String.eqb_spec k k') as [->|Hne].
  - intros [= ->]. auto.
  - auto.
Qed.

Lemma In_lookup d k v : is_dict d -> In (k, v) d -> lookup d k = Some v.
Proof.
  unfold is_dict, keys. induction d as [|[k' v'] d IH]; simpl; [tauto|].
  intros Hnd [Heq|Hin].
  - inversion Heq; subst. rewrite String.eqb_refl. reflexivity.
  - inversion Hnd as [|? ? Hnotin Hnd']; subst.
    destruct (String.eqb_spec k k') as [->|Hne]; [|auto].
    exfalso. apply Hnotin. change k' with (fst (k', v)).
    apply in_map. exact Hin.
Qed.

Lemma is_dict_snoc d k v : is_dict d -> mem d k = false -> is_dict (d ++ [(k, v)]).
Proof.
  unfold is_dict, keys. intros Hnd Hm. rewrite map_app. simpl.
  apply mem_false_iff in Hm.
  induction d as [|[k' v'] d IH]; simpl in *.
  - constructor; [tauto|constructor].
  - inversion Hnd as [|? ? Hnotin Hnd']; subst. constructor.
    + rewrite in_app_iff. simpl. intros [H|[H|[]]]; [tauto|]. apply Hm. auto.
    + apply IH; [exact Hnd'|]. intros H. apply Hm. auto.
Qed.

End DictFacts.

(* ================================================================== *)
(** ** The runs of [accumulate] *)

Section Runs.

Variable h : heap.

Lemma components_sound rec obj comps :
  (forall o st st', rec o st = Returns st' -> acc_run h o st st') ->
  forall st st',
    components h rec obj comps st = Returns st' -> comps_run h obj comps st st'.
Proof.
  intros Hrec. induction comps as [|c rest IH]; simpl; intros st st' H.
  - injection H as <-. constructor.
  - destruct (getattr h obj c) as [sub| | |] eqn:Hg; simpl in H; try discriminate.
    destruct (rec sub st) as [st1| | |] eqn:Hr; simpl in H; try discriminate.
    econstructor; eauto.
Qed.

Lemma accumulate_sound fuel :
  forall obj st st',
    accumulate h fuel obj st = Returns st' -> acc_run h obj st st'.
Proof.
  induction fuel as [|fuel IH]; simpl; intros obj st st' H; [discriminate|].
  destruct (in_cache h obj (snd st)) eqn:Hc.
  - injection H as <-. apply acc_skip. exact Hc.
  - destruct (components h (accumulate h fuel) obj (component_names h obj)
                (fst st, obj :: snd st)) as [st2| | |] eqn:Hl;
      simpl in H; try discriminate.
    destruct (bind_name h obj (fst st2)) as [s3| | |] eqn:Hb;
      simpl in H; try discriminate.
    injection H as <-.
    eapply acc_visit; eauto.
    eapply components_sound; eauto.
Qed.

Lemma expand_items_sound fuel items :
  forall st st',
    expand_items h fuel items st = Returns st' -> items_run h items st st'.
Proof.
  induction items as [|[name obj] rest IH]; simpl; intros st st' H.
  - injection H as <-. constructor.
  - destruct (instance_of (deref h obj) Device) eqn:Hd.
    + destruct (accumulate h fuel obj st) as [st1| | |] eqn:Ha;
        simpl in H; try discriminate.
      eapply items_device; eauto using accumulate_sound.
    + simpl in H. apply items_other; auto.
Qed.

Lemma bind_name_inv obj s s' :
  bind_name h obj s = Returns s' ->
  exists n, obj_name (deref h obj) = Some n /\
            (mem s n = true /\ s' = s \/
             mem s n = false /\ s' = s ++ [(n, obj)]).
Proof.
  unfold bind_name. destruct (obj_name (deref h obj)) as [n|]; [|discriminate].
  intros [= <-]. exists n. split; [reflexivity|].
  destruct (mem s n) eqn:Hm; [left; auto|right].
  split; [reflexivity|]. apply dict_set_fresh. exact Hm.
Qed.

(** The cache only grows, at its head. *)
Lemma runs_extend_cache :
  (forall obj st st', acc_run h obj st st' ->
     exists new, snd st' = new ++ snd st) /\
  (forall obj comps st st', comps_run h obj comps st st' ->
     exists new, snd st' = new ++ snd st).
Proof.
  apply acc_comps_ind.
  - intros. exists []. reflexivity.
  - intros obj st st2 s3 _ _ [new Hn] _. simpl in *.
    exists (new ++ [obj]). rewrite Hn, <- app_assoc. reflexivity.
  - intros. exists []. reflexivity.
  - intros obj c rest sub st st1 st2 _ _ [n1 H1] _ [n2 H2].
    exists (n2 ++ n1). rewrite H2, H1, app_assoc. reflexivity.
Qed.

(** A relation between states that is a preorder, that entering an object
    and binding a cached object's name respect, holds of every run. *)
Lemma runs_preorder (Q : Scope * Cache -> Scope * Cache -> Prop) :
  (forall st, Q st st) ->
  (forall a b c, Q a b -> Q b c -> Q a c) ->
  (forall obj s c, in_cache h obj c = false -> Q (s, c) (s, obj :: c)) ->
  (forall obj s c s', In obj c -> bind_name h obj s = Returns s' ->
                      Q (s, c) (s', c)) ->
  (forall obj st st', acc_run h obj st st' -> Q st st') /\
  (forall obj comps st st', comps_run h obj comps st st' -> Q st st').
Proof.
  intros Hrefl Htrans Henter Hbind.
  apply acc_comps_ind.
  - intros. apply Hrefl.
  - intros obj [s c] [s2 c2] s3 Hc Hrun HQ Hb. simpl in *.
    eapply Htrans; [apply Henter; exact Hc|].
    eapply Htrans; [exact HQ|].
    apply Hbind with (obj := obj); [|exact Hb].
    destruct (proj2 runs_extend_cache _ _ _ _ Hrun) as [new Hn].
    simpl in Hn. rewrite Hn. apply in_or_app. right. left. reflexivity.
  - intros. apply Hrefl.
  - intros obj c rest sub st st1 st2 _ _ H1 _ H2. eapply Htrans; eauto.
Qed.

Lemma items_preorder (Q : Scope * Cache -> Scope * Cache -> Prop) :
  (forall st, Q st st) ->
  (forall a b c, Q a b -> Q b c -> Q a c) ->
  (forall obj st st', acc_run h obj st st' -> Q st st') ->
  forall items st st', items_run h items st st' -> Q st st'.
Proof.
  intros Hrefl Htrans Hacc items st st' Hrun.
  induction Hrun; eauto.
Qed.

End Runs.

Section Frame.

Variable h : heap.

Lemma extends_refl st : extends h st st.
Proof.
  repeat split.
  - exists []. rewrite app_nil_r. split; [reflexivity|]. intros ? ? [].
  - exists []. reflexivity.
  - auto.
Qed.

Lemma extends_trans a b c : extends h a b -> extends h b c -> extends h a c.
Proof.
  intros [[ad1 [E1 F1]] [[n1 C1] D1]] [[ad2 [E2 F2]] [[n2 C2] D2]].
  repeat split.
  - exists (ad1 ++ ad2). rewrite E2, E1, app_assoc. split; [reflexivity|].
    intros n o Hin. apply in_app_or in Hin. destruct Hin as [Hin|Hin].
    + destruct (F1 n o Hin) as [Hn Hc]. split; [exact Hn|].
      rewrite C2. apply in_or_app. right. exact Hc.
    + apply F2. exact Hin.
  - exists (n2 ++ n1). rewrite C2, C1, app_assoc. reflexivity.
  - auto.
Qed.

Lemma runs_frame :
  (forall obj st st', acc_run h obj st st' -> extends h st st') /\
  (forall obj comps st st', comps_run h obj comps st st' -> extends h st st').
Proof.
  apply runs_preorder.
  - apply extends_refl.
  - apply extends_trans.
  - intros obj s c _. repeat split; simpl.
    + exists []. rewrite app_nil_r. split; [reflexivity|]. intros ? ? [].
    + exists [obj]. reflexivity.
    + auto.
  - intros obj s c s' Hin Hb.
    destruct (bind_name_inv h _ _ _ Hb) as [n [Hn [[Hm ->]|[Hm ->]]]].
    + apply extends_refl.
    + repeat split; simpl.
      * exists [(n, obj)]. split; [reflexivity|].
        intros n' o [[= <- <-]|[]]. split; assumption.
      * exists []. reflexivity.
      * intros Hd. apply is_dict_snoc; assumption.
Qed.

Lemma items_frame items st st' :
  items_run h items st st' -> extends h st st'.
Proof.
  revert items st st'. apply items_preorder.
  - apply extends_refl.
  - apply extends_trans.
  - apply runs_frame.
Qed.

(** A binding present before a run is read unchanged after it. *)
Lemma extension_keeps_lookup (s added : Scope) n o :
  lookup s n = Some o -> lookup (s ++ added) n = Some o.
Proof. intros H. rewrite lookup_app, H. reflexivity. Qed.

End Frame.

(* ================================================================== *)
(** ** Termination of the expansion *)

Section Termination.

Variable h : heap.

Lemma filter_length_le (A : Type) (f g : A -> bool) (l : list A) :
  (forall x, f x = true -> g x = true) ->
  List.length (filter f l) <= List.length (filter g l).
Proof.
  intros Hfg. induction l as [|x l IH]; simpl; [lia|].
  destruct (f x) eqn:Hf.
  - rewrite (Hfg x Hf). simpl. lia.
  - destruct (g x); simpl; lia.
Qed.

Lemma filter_length_lt (A : Type) (f g : A -> bool) (l : list A) (a : A) :
  (forall x, f x = true -> g x = true) ->
  In a l -> f a = false -> g a = true ->
  List.length (filter f l) < List.length (filter g l).
Proof.
  intros Hfg Hin Hfa Hga. induction l as [|x l IH]; simpl; [destruct Hin|].
  destruct Hin as [->|Hin].
  - rewrite Hfa, Hga. simpl.
    pose proof (filter_length_le A f g l Hfg). lia.
  - specialize (IH Hin). destruct (f x) eqn:Hf.
    + rewrite (Hfg x Hf). simpl. lia.
    + destruct (g x); simpl; lia.
Qed.

Lemma py_eq_refl o : py_eq h o o = true.
Proof. unfold py_eq. rewrite Nat.eqb_refl. reflexivity. Qed.

Lemma in_cache_app o new c :
  in_cache h o (new ++ c) = in_cache h o new || in_cache h o c.
Proof. unfold in_cache. apply existsb_app. Qed.

Lemma in_cache_In o c : In o c -> in_cache h o c = true.
Proof.
  intros Hin. unfold in_cache. apply existsb_exists.
  exists o. split; [exact Hin|apply py_eq_refl].
Qed.

Lemma unvisited_mono new c : unvisited h (new ++ c) <= unvisited h c.
Proof.
  unfold unvisited. apply filter_length_le.
  intros x. rewrite in_cache_app.
  destruct (in_cache h x new), (in_cache h x c); simpl; congruence.
Qed.

Lemma unvisited_enter obj c :
  obj < List.length h -> in_cache h obj c = false ->
  unvisited h (obj :: c) < unvisited h c.
Proof.
  intros Hlt Hc. unfold unvisited. apply filter_length_lt with (a := obj).
  - intros x. change (obj :: c) with ([obj] ++ c). rewrite in_cache_app.
    destruct (in_cache h x [obj]), (in_cache h x c); simpl; congruence.
  - apply in_seq. lia.
  - simpl. rewrite py_eq_refl. reflexivity.
  - rewrite Hc. reflexivity.
Qed.

Lemma deref_dangling obj : List.length h <= obj -> deref h obj = bare.
Proof. intros H. unfold deref. apply nth_overflow. exact H. Qed.

Lemma terminates_bind_name obj s (k : Scope -> Scope * Cache) :
  terminates (scope_objs <- bind_name h obj s ;; Returns (k scope_objs)).
Proof.
  unfold bind_name. destruct (obj_name (deref h obj)); simpl.
  - left. eexists. reflexivity.
  - right. eexists. reflexivity.
Qed.

Lemma components_terminates fuel obj :
  (forall o st, unvisited h (snd st) < fuel ->
                terminates (accumulate h fuel o st)) ->
  forall comps st,
    unvisited h (snd st) < fuel ->
    terminates (components h (accumulate h fuel) obj comps st).
Proof.
  intros IH. induction comps as [|c rest IHc]; simpl; intros st Hlt.
  - left. eexists. reflexivity.
  - destruct (getattr h obj c) as [sub| | |] eqn:Hg; simpl.
    + destruct (IH sub st Hlt) as [[st1 Hr]|[e Hr]]; rewrite Hr; simpl.
      * apply IHc. apply accumulate_sound in Hr.
        destruct (proj1 (runs_extend_cache h) _ _ _ Hr) as [new Hn].
        rewrite Hn. pose proof (unvisited_mono new (snd st)). lia.
      * right. eexists. reflexivity.
    + right. eexists. reflexivity.
    + unfold getattr in Hg.
      destruct (lookup (obj_attrs (deref h obj)) c); discriminate.
    + unfold getattr in Hg.
      destruct (lookup (obj_attrs (deref h obj)) c); discriminate.
Qed.

Lemma accumulate_terminates fuel :
  forall obj st,
    unvisited h (snd st) < fuel -> terminates (accumulate h fuel obj st).
Proof.
  induction fuel as [|fuel IH]; intros obj st Hlt; [lia|]. simpl.
  destruct (in_cache h obj (snd st)) eqn:Hc.
  - left. eexists. reflexivity.
  - destruct (Nat.lt_ge_cases obj (List.length h)) as [Hin|Hout].
    + pose proof (unvisited_enter _ _ Hin Hc) as Hdec.
      destruct (components_terminates fuel obj IH (component_names h obj)
                  (fst st, obj :: snd st)) as [[st2 Hr]|[e Hr]].
      * cbn [snd].
        apply Nat.lt_le_trans with (unvisited h (snd st)); [exact Hdec|].
        apply Nat.lt_succ_r. exact Hlt.
      * rewrite Hr. simpl. apply terminates_bind_name.
      * rewrite Hr. right. eexists. reflexivity.
    + unfold component_names, bind_name.
      rewrite (deref_dangling _ Hout). simpl.
      right. eexists. reflexivity.
Qed.

Lemma expand_items_terminates fuel items :
  forall st,
    unvisited h (snd st) < fuel -> terminates (expand_items h fuel items st).
Proof.
  induction items as [|[name obj] rest IH]; simpl; intros st Hlt.
  - left. eexists. reflexivity.
  - destruct (instance_of (deref h obj) Device).
    + destruct (accumulate_terminates fuel obj st Hlt) as [[st1 Hr]|[e Hr]];
        rewrite Hr; simpl.
      * apply IH. apply accumulate_sound in Hr.
        destruct (proj1 (runs_extend_cache h) _ _ _ Hr) as [new Hn].
        rewrite Hn. pose proof (unvisited_mono new (snd st)). lia.
      * right. eexists. reflexivity.
    + simpl. apply IH. exact Hlt.
Qed.

Lemma unvisited_bound c : unvisited h c <= List.length h.
Proof.
  unfold unvisited.
  etransitivity; [apply filter_length_le with (g := fun _ => true); auto|].
  assert (H : forall l : list nat, List.length (filter (fun _ => true) l) = List.length l).
  { induction l; simpl; auto. }
  rewrite H, length_seq. lia.
Qed.

Lemma expand_terminates fuel s :
  List.length h < fuel -> terminates (expand h fuel s).
Proof.
  intros Hlt. unfold expand.
  destruct (expand_items_terminates fuel s (s, [])) as [[st Hr]|[e Hr]].
  - cbn [snd]. pose proof (unvisited_bound []). lia.
  - rewrite Hr. left. eexists. reflexivity.
  - rewrite Hr. right. eexists. reflexivity.
Qed.

(** More fuel does not change the result of a run that ended. *)
Lemma components_fuel (rec rec' : oid -> Scope * Cache -> outcome (Scope * Cache))
  obj comps :
  (forall o st r, rec o st = r -> r <> OutOfFuel -> rec' o st = r) ->
  forall st r,
    components h rec obj comps st = r -> r <> OutOfFuel ->
    components h rec' obj comps st = r.
Proof.
  intros Hrec. induction comps as [|c rest IH]; simpl; intros st r Hr Hne.
  - exact Hr.
  - destruct (getattr h obj c) as [sub| | |]; simpl in *; try exact Hr.
    destruct (rec sub st) as [st1| | |] eqn:E.
    + rewrite (Hrec _ _ _ E) by discriminate. simpl in *. apply IH; assumption.
    + rewrite (Hrec _ _ _ E) by discriminate. exact Hr.
    + simpl in Hr. congruence.
    + rewrite (Hrec _ _ _ E) by discriminate. exact Hr.
Qed.

Lemma accumulate_S fuel obj st :
  accumulate h (S fuel) obj st =
  if in_cache h obj (snd st) then Returns st
  else
    st2 <- components h (accumulate h fuel) obj (component_names h obj)
             (fst st, obj :: snd st) ;;
    scope_objs <- bind_name h obj (fst st2) ;;
    Returns (scope_objs, snd st2).
Proof. reflexivity. Qed.

Lemma accumulate_fuel_S fuel :
  forall obj st r,
    accumulate h fuel obj st = r -> r <> OutOfFuel ->
    accumulate h (S fuel) obj st = r.
Proof.
  induction fuel as [|fuel IH]; intros obj st r Hr Hne.
  - simpl in Hr. congruence.
  - rewrite accumulate_S in Hr. rewrite accumulate_S.
    destruct (in_cache h obj (snd st)); [exact Hr|].
    destruct (components h (accumulate h fuel) obj (component_names h obj)
                (fst st, obj :: snd st)) as [st2| | |] eqn:E.
    + rewrite (components_fuel _ _ obj _ IH _ _ E) by discriminate. exact Hr.
    + rewrite (components_fuel _ _ obj _ IH _ _ E) by discriminate. exact Hr.
    + simpl in Hr. congruence.
    + rewrite (components_fuel _ _ obj _ IH _ _ E) by discriminate. exact Hr.
Qed.

Lemma accumulate_fuel_le fuel fuel' obj st r :
  fuel <= fuel' -> accumulate h fuel obj st = r -> r <> OutOfFuel ->
  accumulate h fuel' obj st = r.
Proof.
  induction 1 as [|m Hle IH]; [auto|].
  intros Hr Hne. apply accumulate_fuel_S; auto.
Qed.

Lemma expand_items_fuel_le fuel fuel' items :
  fuel <= fuel' ->
  forall st r,
    expand_items h fuel items st = r -> r <> OutOfFuel ->
    expand_items h fuel' items st = r.
Proof.
  intros Hle. induction items as [|[name obj] rest IH]; simpl; intros st r Hr Hne.
  - exact Hr.
  - destruct (instance_of (deref h obj) Device); [|apply IH; assumption].
    destruct (accumulate h fuel obj st) as [st1| | |] eqn:E.
    + rewrite (accumulate_fuel_le fuel fuel' obj st _ Hle E) by discriminate.
      simpl in *. apply IH; assumption.
    + rewrite (accumulate_fuel_le fuel fuel' obj st _ Hle E) by discriminate.
      exact Hr.
    + simpl in Hr. congruence.
    + rewrite (accumulate_fuel_le fuel fuel' obj st _ Hle E) by discriminate.
      exact Hr.
Qed.

(** Beyond the size of the heap the budget plays no part in the result. *)
Lemma expand_fuel_irrelevant fuel s :
  List.length h < fuel -> expand h fuel s = expand h (enough_fuel h) s.
Proof.
  intros Hf. unfold expand.
  assert (Hle : enough_fuel h <= fuel) by (unfold enough_fuel; lia).
  destruct (expand_items_terminates (enough_fuel h) s (s, [])) as [[st Hr]|[e Hr]].
  - cbn [snd]. pose proof (unvisited_bound []). unfold enough_fuel. lia.
  - rewrite (expand_items_fuel_le _ _ s Hle _ _ Hr) by discriminate.
    rewrite Hr. reflexivity.
  - rewrite (expand_items_fuel_le _ _ s Hle _ _ Hr) by discriminate.
    rewrite Hr. reflexivity.
Qed.

End Termination.

(* ================================================================== *)
(** ** What the expansion visits and binds *)

Section Visits.

Variable h : heap.

Lemma settled_extends st st' x :
  extends h st st' -> settled h st x -> settled h st' x.
Proof.
  intros [[added [Ha _]] [[new Hn] _]] [[n [Hname Hm]] Hch]. split.
  - exists n. split; [exact Hname|]. rewrite Ha, mem_app, Hm. reflexivity.
  - intros y Hy. rewrite Hn, in_cache_app, (Hch y Hy). apply orb_true_r.
Qed.

Lemma in_children obj y :
  In y (children h obj) <->
  exists comp_name, In comp_name (component_names h obj) /\
                    getattr h obj comp_name = Returns y.
Proof.
  unfold children, getattr. rewrite in_flat_map. split.
  - intros [c [Hc Hy]]. exists c. split; [exact Hc|].
    destruct (lookup (obj_attrs (deref h obj)) c); simpl in Hy; [|tauto].
    destruct Hy as [->|[]]. reflexivity.
  - intros [c [Hc Hy]]. exists c. split; [exact Hc|].
    destruct (lookup (obj_attrs (deref h obj)) c); [|discriminate].
    injection Hy as ->. left. reflexivity.
Qed.

(** After a run the object is in the cache, and every object the run added
    to the cache is settled. *)
Lemma runs_settle :
  (forall obj st st', acc_run h obj st st' ->
     in_cache h obj (snd st') = true /\
     forall x, In x (snd st') -> In x (snd st) \/ settled h st' x) /\
  (forall obj comps st st', comps_run h obj comps st st' ->
     (forall comp_name y, In comp_name comps ->
        getattr h obj comp_name = Returns y ->
        in_cache h y (snd st') = true) /\
     forall x, In x (snd st') -> In x (snd st) \/ settled h st' x).
Proof.
  apply acc_comps_ind.
  - intros obj st Hc. split; [exact Hc|]. intros x Hx. left. exact Hx.
  - intros obj [s c] [s2 c2] s3 Hc Hrun [Hsub Hnew] Hb. cbn [fst snd] in *.
    destruct (proj2 (runs_extend_cache h) _ _ _ _ Hrun) as [new Hn].
    cbn [snd] in Hn.
    assert (Hext : extends h (s2, c2) (s3, c2)).
    { destruct (bind_name_inv h _ _ _ Hb) as [n [Hname [[Hm ->]|[Hm ->]]]].
      - apply extends_refl.
      - repeat split; cbn [fst snd].
        + exists [(n, obj)]. split; [reflexivity|].
          intros n' o [[= <- <-]|[]]. split; [exact Hname|].
          rewrite Hn. apply in_or_app. right. left. reflexivity.
        + exists []. reflexivity.
        + intros Hd. apply is_dict_snoc; assumption. }
    split.
    + apply in_cache_In. rewrite Hn. apply in_or_app. right. left. reflexivity.
    + intros x Hx. destruct (Hnew x Hx) as [[<-|Hold]|Hs].
      * right. split; cbn [fst snd].
        -- destruct (bind_name_inv h _ _ _ Hb) as [n [Hname [[Hm ->]|[Hm ->]]]];
             exists n; (split; [exact Hname|]); [exact Hm|].
           rewrite mem_app. apply orb_true_iff. right.
           unfold mem. simpl. rewrite String.eqb_refl. reflexivity.
        -- intros y Hy. apply in_children in Hy.
           destruct Hy as [cn [Hcn Hg]]. eapply Hsub; eauto.
      * left. exact Hold.
      * right. eapply settled_extends; eauto.
  - intros obj st. split; [intros ? ? []|]. intros x Hx. left. exact Hx.
  - intros obj cn rest sub st st1 st2 Hg Hacc [Hin1 Hnew1] Hrun [Hsub Hnew2].
    pose proof (proj2 (runs_frame h) _ _ _ _ Hrun) as Hext.
    split.
    + intros cn' y [<-|Hrest] Hg'.
      * rewrite Hg in Hg'. injection Hg' as <-.
        destruct Hext as [_ [[new Hn] _]].
        rewrite Hn, in_cache_app, Hin1. apply orb_true_r.
      * eapply Hsub; eauto.
    + intros x Hx. destruct (Hnew2 x Hx) as [Hx1|Hs]; [|right; exact Hs].
      destruct (Hnew1 x Hx1) as [Hx0|Hs]; [left; exact Hx0|right].
      eapply settled_extends; eauto.
Qed.

Lemma items_settle items st st' :
  items_run h items st st' ->
  (forall n d, In (n, d) items -> instance_of (deref h d) Device = true ->
               in_cache h d (snd st') = true) /\
  forall x, In x (snd st') -> In x (snd st) \/ settled h st' x.
Proof.
  induction 1 as [st|name obj rest st st1 st2 Hd Hacc Hrun [IH1 IH2]
                    |name obj rest st st2 Hd Hrun [IH1 IH2]].
  - split; [intros ? ? []|]. intros x Hx. left. exact Hx.
  - pose proof (items_frame h _ _ _ Hrun) as Hext.
    destruct (proj1 runs_settle _ _ _ Hacc) as [Hin Hnew].
    split.
    + intros n d [[= <- <-]|Hrest] Hdev.
      * destruct Hext as [_ [[new Hn] _]].
        rewrite Hn, in_cache_app, Hin. apply orb_true_r.
      * eapply IH1; eauto.
    + intros x Hx. destruct (IH2 x Hx) as [Hx1|Hs]; [|right; exact Hs].
      destruct (Hnew x Hx1) as [Hx0|Hs]; [left; exact Hx0|right].
      eapply settled_extends; eauto.
  - split.
    + intros n d [[= <- <-]|Hrest] Hdev; [congruence|].
      eapply IH1; eauto.
    + exact IH2.
Qed.

End Visits.

(* ================================================================== *)
(** ** Pools that bind objects under their canonical names *)

Section Canonical.

Variable h : heap.

Lemma default_eq_key o : default_eq h = true -> obj_eq_key (deref h o) = None.
Proof.
  unfold default_eq, deref. intros Hall.
  destruct (nth_in_or_default o h bare) as [Hin | Hb]; [|rewrite Hb; reflexivity].
  rewrite forallb_forall in Hall. specialize (Hall _ Hin).
  destruct (obj_eq_key (nth o h bare)); [discriminate|reflexivity].
Qed.

Lemma default_eq_py_eq a b : default_eq h = true -> py_eq h a b = Nat.eqb a b.
Proof.
  intros Hd. unfold py_eq. rewrite (default_eq_key a Hd). apply orb_false_r.
Qed.

Lemma default_eq_in_cache o c :
  default_eq h = true -> in_cache h o c = true -> In o c.
Proof.
  intros Hd Hc. unfold in_cache in Hc. apply existsb_exists in Hc.
  destruct Hc as [x [Hx Heq]]. rewrite default_eq_py_eq in Heq by exact Hd.
  apply Nat.eqb_eq in Heq. subst. exact Hx.
Qed.

Lemma canonical_app s added :
  canonical h (s ++ added) = canonical h s && canonical h added.
Proof. unfold canonical. apply forallb_app. Qed.

Lemma canonical_named s n o m :
  canonical h s = true -> In (n, o) s ->
  obj_name (deref h o) = Some m -> m = n.
Proof.
  unfold canonical. intros Hc Hin Hm. rewrite forallb_forall in Hc.
  specialize (Hc _ Hin). simpl in Hc. rewrite Hm in Hc.
  apply String.eqb_eq. exact Hc.
Qed.

Lemma names_object_deref o n :
  obj_name (deref h o) = Some n -> names_object h n = true.
Proof.
  intros Hn. unfold names_object. apply existsb_exists.
  exists (deref h o). split.
  - unfold deref. apply nth_In.
    destruct (Nat.lt_ge_cases o (List.length h)) as [H|H]; [exact H|].
    unfold deref in Hn. rewrite nth_overflow in Hn by exact H. discriminate.
  - rewrite Hn. apply String.eqb_refl.
Qed.

Lemma canonical_taken s n y o :
  canonical h s = true -> In (n, y) s ->
  obj_name (deref h o) = Some n -> obj_name (deref h y) = Some n.
Proof.
  unfold canonical. intros Hc Hin Ho. rewrite forallb_forall in Hc.
  specialize (Hc _ Hin). simpl in Hc.
  destruct (obj_name (deref h y)) as [m|].
  - apply String.eqb_eq in Hc. congruence.
  - rewrite (names_object_deref o n Ho) in Hc. discriminate.
Qed.

Lemma canonical_added added (c : Cache) :
  (forall n o, In (n, o) added ->
     obj_name (deref h o) = Some n /\ In o c) ->
  canonical h added = true.
Proof.
  intros H. unfold canonical. apply forallb_forall. intros [n o] Hin.
  destruct (H n o Hin) as [Hn _]. simpl. rewrite Hn. apply String.eqb_refl.
Qed.

Lemma named_in_heap o n : obj_name (deref h o) = Some n -> o < List.length h.
Proof.
  intros Hn. destruct (Nat.lt_ge_cases o (List.length h)) as [H|H]; [exact H|].
  rewrite (deref_dangling h o H) in Hn. discriminate.
Qed.

Lemma distinct_names_eq a b n :
  distinct_names h = true ->
  obj_name (deref h a) = Some n -> obj_name (deref h b) = Some n -> a = b.
Proof.
  unfold distinct_names. intros Hd Ha Hb.
  rewrite forallb_forall in Hd.
  assert (Hia : In a (seq 0 (List.length h))).
  { apply in_seq. pose proof (named_in_heap a n Ha). lia. }
  assert (Hib : In b (seq 0 (List.length h))).
  { apply in_seq. pose proof (named_in_heap b n Hb). lia. }
  specialize (Hd a Hia). rewrite forallb_forall in Hd. specialize (Hd b Hib).
  unfold same_name in Hd. rewrite Ha, Hb, String.eqb_refl in Hd. simpl in Hd.
  rewrite orb_false_r in Hd. apply Nat.eqb_eq. exact Hd.
Qed.

(** In a cache closed under components every object reachable from a cached
    object is cached. *)
Lemma reachable_cached (c : Cache) st :
  default_eq h = true -> snd st = c ->
  (forall x, In x c -> settled h st x) ->
  forall d o, reachable h d o -> In d c -> In o c.
Proof.
  intros Hd Hc Hs d o Hr. induction Hr as [x|x y z Hy Hr IH]; [auto|].
  intros Hx. apply IH. destruct (Hs x Hx) as [_ Hch].
  apply default_eq_in_cache; [exact Hd|]. rewrite <- Hc. apply Hch. exact Hy.
Qed.

End Canonical.

(* ================================================================== *)
(** ** Properties of the composite expansion *)

(** C1 (as stated, refuted).  A cyclic composite bound under a name that is
    not its canonical name: the expansion returns, and the composite is then
    bound twice, under the name it had and under its canonical name. *)
Lemma cycle_bound_under_alias_appears_twice :
  exists s',
    expand cycle_heap (enough_fuel cycle_heap) [("x", 0)] = Returns s' /\
    involved cycle_heap [("x", 0)] 0 /\
    ~ appears_once s' 0.
Proof.
  exists [("x", 0); ("b", 1); ("a", 0)]. split; [reflexivity|]. split.
  - exists "x", 0. repeat split. apply reach_here.
  - intros [n [_ Huniq]].
    assert (Hx : "x" = n) by (apply Huniq; reflexivity).
    assert (Ha : "a" = n) by (apply Huniq; reflexivity).
    congruence.
Qed.

(** C1 (amended).  For every composite graph, cyclic or not, the expansion
    of a pool terminates; and when it returns, on a heap whose objects have
    the default equality and pairwise distinct canonical names and from a
    pool that binds its named objects under their canonical names, every
    object reachable from a bound [Device] appears exactly once in the
    resulting pool. *)
Theorem expansion_terminates_and_binds_once h s fuel :
  List.length h < fuel ->
  terminates (expand h fuel s) /\
  (forall s',
     expand h fuel s = Returns s' ->
     canonical h s = true -> distinct_names h = true -> default_eq h = true ->
     forall o, involved h s o -> appears_once s' o).
Proof.
  intros Hf. split; [apply expand_terminates; exact Hf|].
  intros s' He Hcan Hdist Hdef o [n [d [Hl [Hdev Hr]]]].
  unfold expand in He.
  destruct (expand_items h fuel s (s, [])) as [[S C]| | |] eqn:Hrun;
    simpl in He; try discriminate.
  injection He as <-.
  apply expand_items_sound in Hrun.
  destruct (items_settle h _ _ _ Hrun) as [Hdevs Hset].
  destruct (items_frame h _ _ _ Hrun) as [[added [Hadd Hcanon]] _].
  cbn [fst snd] in *.
  assert (HcanS : canonical h S = true).
  { rewrite Hadd, canonical_app, Hcan. simpl.
    eapply canonical_added; eauto. }
  assert (Hall : forall x, In x C -> settled h (S, C) x).
  { intros x Hx. destruct (Hset x Hx) as [[]|Hs]. exact Hs. }
  assert (HdC : In d C).
  { apply (default_eq_in_cache h); [exact Hdef|].
    eapply Hdevs; [apply lookup_In; exact Hl|exact Hdev]. }
  assert (HoC : In o C).
  { eapply (reachable_cached h C (S, C)); eauto. }
  destruct (Hall o HoC) as [[m [Hm Hmem]] _].
  unfold mem in Hmem. cbn [fst] in Hmem.
  destruct (lookup S m) as [y|] eqn:Hy; [|discriminate].
  assert (y = o).
  { apply (distinct_names_eq h y o m); auto.
    apply (canonical_taken h S m y o); auto using lookup_In. }
  subst y. exists m. split; [exact Hy|].
  intros n' Hn'. apply lookup_In in Hn'.
  symmetry. exact (canonical_named h S n' o m HcanS Hn' Hm).
Qed.

Lemma expansion_terminates_and_binds_once_witness :
  terminates (expand cycle_heap 3 [("a", 0)]) /\
  appears_once [("a", 0); ("b", 1)] 1.
Proof.
  destruct (expansion_terminates_and_binds_once cycle_heap [("a", 0)] 3)
    as [Ht Ho].
  - simpl. lia.
  - split; [exact Ht|].
    apply Ho; try reflexivity.
    exists "a", 0. repeat split.
    apply reach_child with (y := 1); [left; reflexivity|apply reach_here].
Defined.

(** C2.  Composite expansion only adds bindings to the pool: the pool it
    returns starts with the bindings it was given, in their order, and every
    name bound before is bound to the same object after. *)
Theorem expansion_keeps_bindings h fuel s s' :
  expand h fuel s = Returns s' ->
  (exists added, s' = s ++ added) /\
  (forall n o, lookup s n = Some o -> lookup s' n = Some o).
Proof.
  intros He. unfold expand in He.
  destruct (expand_items h fuel s (s, [])) as [[S C]| | |] eqn:Hrun;
    simpl in He; try discriminate.
  injection He as <-.
  apply expand_items_sound in Hrun.
  destruct (items_frame h _ _ _ Hrun) as [[added [Hadd _]] _].
  cbn [fst] in Hadd. split.
  - exists added. exact Hadd.
  - intros n o Hl. rewrite Hadd. apply extension_keeps_lookup. exact Hl.
Qed.

Lemma expansion_keeps_bindings_witness :
  (exists added, [("x", 0); ("b", 1); ("a", 0)] = [("x", 0)] ++ added) /\
  (forall n o, lookup [("x", 0)] n = Some o ->
               lookup [("x", 0); ("b", 1); ("a", 0)] n = Some o).
Proof.
  apply (expansion_keeps_bindings cycle_heap 3 [("x", 0)]). reflexivity.
Defined.

Lemma in_cache_equal_cached h obj c :
  in_cache h obj c = true <-> equal_cached h obj c.
Proof.
  unfold in_cache, equal_cached, py_eq. rewrite existsb_exists. split.
  - intros [x [Hx Heq]]. exists x. split; [exact Hx|].
    apply orb_true_iff in Heq. destruct Heq as [Heq|Heq].
    + left. apply Nat.eqb_eq in Heq. congruence.
    + right. destruct (obj_eq_key (deref h obj)) as [k|]; [|discriminate].
      destruct (obj_eq_key (deref h x)) as [k'|]; [|discriminate].
      apply Z.eqb_eq in Heq. subst. exists k'. auto.
  - intros [x [Hx [Heq|[k [Ho Hk]]]]]; exists x; (split; [exact Hx|]).
    + subst x. rewrite Nat.eqb_refl. reflexivity.
    + rewrite Ho, Hk, Z.eqb_refl. apply orb_true_r.
Qed.

(** C7 (as stated, refuted).  Objects 1 and 2 are distinct and compare
    equal; the pass over the composite that lists both visits object 1 and
    skips object 2, whose identity was never visited: it is neither cached
    nor bound. *)
Lemma equal_twin_is_skipped :
  1 <> 2 /\ py_eq twins_heap 1 2 = true /\
  exists s' c',
    accumulate twins_heap (enough_fuel twins_heap) 0 ([("d", 0)], [])
      = Returns (s', c') /\
    In 1 c' /\ ~ In 2 c' /\ lookup s' "x" = Some 1 /\ lookup s' "y" = None.
Proof.
  split; [discriminate|]. split; [reflexivity|].
  exists [("d", 0); ("x", 1)], [1; 0]. split; [reflexivity|].
  split; [left; reflexivity|]. split; [|split; reflexivity].
  intros [H|[H|[]]]; discriminate.
Qed.

(** C7 (amended).  During one pass an object is skipped if and only if the
    cache already holds it or an object that compares equal to it, as the
    membership test of a Python set decides: a skipped call leaves the pool
    and the cache as they are; a call that is not skipped and returns has
    cached the object, bound its canonical name and cached its components.
    For objects with the default equality the test is one of identity. *)
Theorem skipped_iff_equal_object_cached h fuel obj s c :
  (equal_cached h obj c ->
     accumulate h (S fuel) obj (s, c) = Returns (s, c)) /\
  (~ equal_cached h obj c ->
     forall st', accumulate h (S fuel) obj (s, c) = Returns st' ->
                 In obj (snd st') /\ settled h st' obj) /\
  (default_eq h = true -> (equal_cached h obj c <-> In obj c)).
Proof.
  split; [|split].
  - intros He. apply in_cache_equal_cached in He.
    rewrite accumulate_S. cbn [snd]. rewrite He. reflexivity.
  - intros Hne st' Hacc.
    assert (Hc : in_cache h obj c = false).
    { destruct (in_cache h obj c) eqn:E; [|reflexivity].
      exfalso. apply Hne. apply in_cache_equal_cached. exact E. }
    apply accumulate_sound in Hacc.
    inversion Hacc as [? ? Hin|? ? st2 s3 _ Hrun Hb]; subst.
    + cbn [snd] in Hin. congruence.
    + destruct (proj2 (runs_extend_cache h) _ _ _ _ Hrun) as [new Hn].
      cbn [fst snd] in *.
      assert (Hobj : In obj (snd st2)).
      { rewrite Hn. apply in_or_app. right. left. reflexivity. }
      split; [exact Hobj|].
      destruct (proj1 (runs_settle h) _ _ _ Hacc) as [_ Hnew].
      destruct (Hnew obj Hobj) as [Hold|Hs]; [|exact Hs].
      cbn [snd] in Hold. apply (in_cache_In h) in Hold. congruence.
  - intros Hd. rewrite <- in_cache_equal_cached. split.
    + apply default_eq_in_cache. exact Hd.
    + apply in_cache_In.
Qed.

Lemma skipped_iff_equal_object_cached_witness :
  accumulate twins_heap 1 2 ([("d", 0); ("x", 1)], [1; 0])
    = Returns ([("d", 0); ("x", 1)], [1; 0]) /\
  (In 1 (snd ([("d", 0); ("x", 1)], [1; 0])) /\
   settled twins_heap ([("d", 0); ("x", 1)], [1; 0]) 1) /\
  (equal_cached cycle_heap 0 [1; 0] <-> In 0 [1; 0]).
Proof.
  split; [|split].
  - apply (skipped_iff_equal_object_cached twins_heap 0 2).
    exists 1. split; [left; reflexivity|]. right. exists 7%Z. split; reflexivity.
  - apply (proj1 (proj2 (skipped_iff_equal_object_cached
                           twins_heap 0 1 [("d", 0)] [0]))).
    + intros [x [[<-|[]] [H|[k [_ H]]]]]; discriminate.
    + reflexivity.
  - apply (skipped_iff_equal_object_cached cycle_heap 0 0 [] [1; 0]).
    reflexivity.
Defined.

(* ================================================================== *)
(** ** Computations that do not read the trace *)

Section Oblivious.

Lemma oblivious_ret (A : Type) (a : A) : oblivious (ret a).
Proof. intros t. unfold ret. simpl. rewrite app_nil_r. reflexivity. Qed.

Lemma oblivious_lift (A : Type) (r : outcome A) : oblivious (lift r).
Proof. intros t. unfold lift. simpl. rewrite app_nil_r. reflexivity. Qed.

Lemma oblivious_emit ev : oblivious (emit ev).
Proof. intros t. reflexivity. Qed.

Lemma oblivious_bind (A B : Type) (m : M A) (k : A -> M B) :
  oblivious m -> (forall a, oblivious (k a)) -> oblivious (mbind m k).
Proof.
  intros Hm Hk t. unfold mbind. rewrite (Hm t).
  destruct (m []) as [r t0] eqn:E0. simpl.
  destruct r as [a| | |]; simpl; try reflexivity.
  rewrite (Hk a (t ++ t0)), (Hk a t0). simpl. rewrite app_assoc. reflexivity.
Qed.

Lemma oblivious_try (A : Type) (body : M A) catches handler :
  oblivious body -> (forall e, oblivious (handler e)) ->
  oblivious (try_except body catches handler).
Proof.
  intros Hb Hh t. unfold try_except. rewrite (Hb t).
  destruct (body []) as [r t0] eqn:E0. simpl.
  destruct r as [a|e| |]; simpl; try reflexivity.
  destruct (catches e); [|reflexivity].
  rewrite (Hh e (t ++ t0)), (Hh e t0). simpl. rewrite app_assoc. reflexivity.
Qed.

Lemma oblivious_outcome (A : Type) (m : M A) t :
  oblivious m -> fst (m t) = fst (m []).
Proof. intros H. rewrite (H t). reflexivity. Qed.

Variable I : Interp.

Lemma oblivious_find_object obj_path : oblivious (find_object I obj_path).
Proof.
  unfold find_object, do_import.
  repeat (apply oblivious_bind; intros);
    auto using oblivious_emit, oblivious_lift.
Qed.

Lemma oblivious_find_class class_path : oblivious (find_class I class_path).
Proof.
  unfold find_class. destruct (PyStr.contains "." class_path).
  - apply oblivious_find_object.
  - unfold do_eval. apply oblivious_bind; intros;
      auto using oblivious_emit, oblivious_lift.
Qed.

Lemma oblivious_resolve_cls cls : oblivious (resolve_cls I cls).
Proof.
  destruct cls as [s|c|l|o]; simpl; try apply oblivious_ret.
  destruct (String.eqb s "function"); [apply oblivious_ret|].
  apply oblivious_try.
  - apply oblivious_bind; intros;
      auto using oblivious_find_class, oblivious_ret.
  - intros e. repeat (apply oblivious_bind; intros);
      auto using oblivious_emit, oblivious_ret.
Qed.

Variable h : heap.

Lemma oblivious_select cls items :
  forall class_space, oblivious (select h cls items class_space).
Proof.
  induction items as [|[name obj] rest IH]; simpl; intros class_space.
  - apply oblivious_ret.
  - apply oblivious_bind; [apply oblivious_lift|].
    intros [|]; [|apply IH].
    apply oblivious_bind; [apply oblivious_emit|]. intros _. apply IH.
Qed.

Lemma oblivious_class_namespace fuel cls scope_objs :
  oblivious (class_namespace h I fuel cls scope_objs).
Proof.
  unfold class_namespace.
  apply oblivious_bind; [apply oblivious_emit|]. intros _.
  apply oblivious_bind; [apply oblivious_resolve_cls|].
  intros [c|]; [|apply oblivious_ret].
  apply oblivious_bind; [apply oblivious_lift|]. intros s.
  apply oblivious_select.
Qed.

End Oblivious.

(* ================================================================== *)
(** ** Runs are computed, and a saturated pool is left alone *)

Section Saturation.

Variable h : heap.

(** Every run is the result of [accumulate] with enough fuel. *)
Lemma runs_complete :
  (forall obj st st', acc_run h obj st st' ->
     forall fuel, unvisited h (snd st) < fuel ->
                  accumulate h fuel obj st = Returns st') /\
  (forall obj comps st st', comps_run h obj comps st st' ->
     forall fuel, unvisited h (snd st) < fuel ->
                  components h (accumulate h fuel) obj comps st = Returns st').
Proof.
  apply acc_comps_ind.
  - intros obj st Hc [|fuel] Hlt; [inversion Hlt|].
    rewrite accumulate_S, Hc. reflexivity.
  - intros obj st st2 s3 Hc Hrun IH Hb [|fuel] Hlt; [inversion Hlt|].
    rewrite accumulate_S, Hc.
    assert (Hin : obj < List.length h).
    { destruct (bind_name_inv h _ _ _ Hb) as [n [Hn _]].
      exact (named_in_heap h obj n Hn). }
    rewrite IH.
    + simpl. rewrite Hb. reflexivity.
    + cbn [snd].
      apply Nat.lt_le_trans with (unvisited h (snd st));
        [apply unvisited_enter; assumption|].
      apply Nat.lt_succ_r. exact Hlt.
  - intros. reflexivity.
  - intros obj cn rest sub st st1 st2 Hg Hacc IH1 Hrun IH2 fuel Hlt.
    simpl. rewrite Hg. simpl. rewrite (IH1 fuel Hlt). simpl.
    apply IH2.
    destruct (proj1 (runs_extend_cache h) _ _ _ Hacc) as [new Hn].
    rewrite Hn.
    apply Nat.le_lt_trans with (unvisited h (snd st));
      [apply unvisited_mono|exact Hlt].
Qed.

Lemma items_complete items st st' :
  items_run h items st st' ->
  forall fuel, unvisited h (snd st) < fuel ->
               expand_items h fuel items st = Returns st'.
Proof.
  induction 1 as [st|name obj rest st st1 st2 Hd Hacc Hrun IH
                    |name obj rest st st2 Hd Hrun IH]; intros fuel Hlt; simpl.
  - reflexivity.
  - rewrite Hd, (proj1 runs_complete _ _ _ Hacc fuel Hlt). simpl.
    apply IH.
    destruct (proj1 (runs_extend_cache h) _ _ _ Hacc) as [new Hn].
    rewrite Hn.
    apply Nat.le_lt_trans with (unvisited h (snd st));
      [apply unvisited_mono|exact Hlt].
  - rewrite Hd. simpl. apply IH. exact Hlt.
Qed.

(** The traversal does not depend on the pool: over a pool that already
    binds every name the run binds, the same objects are visited and the
    pool is left as it is. *)
Lemma runs_saturated :
  (forall obj st st', acc_run h obj st st' ->
     forall S, (forall n, mem (fst st') n = true -> mem S n = true) ->
               acc_run h obj (S, snd st) (S, snd st')) /\
  (forall obj comps st st', comps_run h obj comps st st' ->
     forall S, (forall n, mem (fst st') n = true -> mem S n = true) ->
               comps_run h obj comps (S, snd st) (S, snd st')).
Proof.
  apply acc_comps_ind.
  - intros obj st Hc S _. apply acc_skip. exact Hc.
  - intros obj st st2 s3 Hc Hrun IH Hb S HS. cbn [fst snd] in *.
    destruct (bind_name_inv h _ _ _ Hb) as [n [Hn Hcases]].
    assert (Hn3 : mem s3 n = true).
    { destruct Hcases as [[Hm ->]|[Hm ->]]; [exact Hm|].
      rewrite mem_app. apply orb_true_iff. right.
      unfold mem. simpl. rewrite String.eqb_refl. reflexivity. }
    assert (H23 : forall m, mem (fst st2) m = true -> mem S m = true).
    { intros m Hm. apply HS.
      destruct Hcases as [[_ ->]|[_ ->]]; [exact Hm|].
      rewrite mem_app, Hm. reflexivity. }
    apply (acc_visit h obj (S, snd st) (S, snd st2) S).
    + exact Hc.
    + apply IH. exact H23.
    + unfold bind_name. rewrite Hn. cbn [fst]. rewrite (HS n Hn3). reflexivity.
  - intros obj st S _. apply comps_done.
  - intros obj cn rest sub st st1 st2 Hg Hacc IH1 Hrun IH2 S HS.
    apply comps_next with (sub_obj := sub) (st1 := (S, snd st1)).
    + exact Hg.
    + apply IH1. intros n Hn. apply HS.
      destruct (proj2 (runs_frame h) _ _ _ _ Hrun) as [[added [Ha _]] _].
      rewrite Ha, mem_app, Hn. reflexivity.
    + apply IH2. exact HS.
Qed.

Lemma items_saturated items st st' :
  items_run h items st st' ->
  forall S, (forall n, mem (fst st') n = true -> mem S n = true) ->
            items_run h items (S, snd st) (S, snd st').
Proof.
  induction 1 as [st|name obj rest st st1 st2 Hd Hacc Hrun IH
                    |name obj rest st st2 Hd Hrun IH]; intros S HS.
  - apply items_done.
  - apply items_device with (st1 := (S, snd st1)).
    + exact Hd.
    + apply (proj1 runs_saturated _ _ _ Hacc). intros n Hn. apply HS.
      destruct (items_frame h _ _ _ Hrun) as [[added [Ha _]] _].
      rewrite Ha, mem_app, Hn. reflexivity.
    + apply IH. exact HS.
  - apply items_other; [exact Hd|]. apply IH. exact HS.
Qed.

Lemma items_cached items st :
  (forall n o, In (n, o) items -> In o (snd st)) ->
  items_run h items st st.
Proof.
  induction items as [|[name obj] rest IH]; intros Hall.
  - apply items_done.
  - assert (Hrest : items_run h rest st st).
    { apply IH. intros n o Hin. apply (Hall n o). right. exact Hin. }
    destruct (instance_of (deref h obj) Device) eqn:Hd.
    + apply items_device with (st1 := st); [exact Hd| |exact Hrest].
      apply acc_skip. apply in_cache_In. apply (Hall name obj).
      left. reflexivity.
    + apply items_other; assumption.
Qed.

Lemma items_run_app l1 l2 a b c :
  items_run h l1 a b -> items_run h l2 b c -> items_run h (l1 ++ l2) a c.
Proof.
  induction 1 as [st|name obj rest st st1 st2 Hd Hacc Hrun IH
                    |name obj rest st st2 Hd Hrun IH]; intros H2; simpl.
  - exact H2.
  - eapply items_device; eauto.
  - apply items_other; auto.
Qed.

(** Expanding a pool that was expanded changes nothing. *)
Lemma expand_idempotent fuel s s' :
  List.length h < fuel ->
  expand h fuel s = Returns s' -> expand h fuel s' = Returns s'.
Proof.
  intros Hf He. unfold expand in He.
  destruct (expand_items h fuel s (s, [])) as [[S C]| | |] eqn:Hrun;
    simpl in He; try discriminate.
  injection He as <-.
  apply expand_items_sound in Hrun.
  destruct (items_frame h _ _ _ Hrun) as [[added [Hadd Hcached]] _].
  cbn [fst snd] in *.
  assert (H1 : items_run h s (S, []) (S, C)).
  { apply (items_saturated _ _ _ Hrun S). auto. }
  assert (H2 : items_run h added (S, C) (S, C)).
  { apply items_cached. intros n o Hin. apply (Hcached n o Hin). }
  pose proof (items_run_app _ _ _ _ _ H1 H2) as H3.
  rewrite <- Hadd in H3.
  unfold expand. rewrite (items_complete _ _ _ H3 fuel).
  - reflexivity.
  - cbn [snd]. pose proof (unvisited_bound h []). lia.
Qed.

End Saturation.

(* ================================================================== *)
(** ** Properties of the type-filtered namespace *)

Lemma errors_logged_app t t' :
  errors_logged (t ++ t') = errors_logged t + errors_logged t'.
Proof. unfold errors_logged. rewrite filter_app, length_app. reflexivity. Qed.

(** [find_class] logs nothing: its only event is the import or the
    evaluation it asks for. *)
Lemma find_class_trace I class_path :
  errors_logged (snd (find_class I class_path [])) = 0.
Proof.
  unfold find_class, find_object, do_import, do_eval, mbind, emit, lift.
  destruct (PyStr.contains "." class_path); simpl.
  - destruct (import_module I _) as [m| | |]; reflexivity.
  - destruct (py_eval I class_path); reflexivity.
Qed.

(** C3 (amended).  A type name given as a string, other than ['function'],
    whose resolution by [find_class] raises an exception that
    [except Exception] catches: the build returns the empty namespace, raises
    nothing, and logs exactly one error. *)
Theorem unresolvable_type_gives_empty_namespace h I fuel s scope t :
  s <> "function" -> unresolvable I s ->
  exists t',
    class_namespace h I fuel (VStr s) scope t = (Returns [], t') /\
    errors_logged t' = S (errors_logged t).
Proof.
  intros Hs [e [Hraise Hexc]].
  apply String.eqb_neq in Hs.
  unfold class_namespace, resolve_cls, try_except, mbind, emit, ret.
  rewrite Hs.
  rewrite (oblivious_find_class I s (t ++ [Log DEBUG _])).
  rewrite Hraise, Hexc. eexists. split; [reflexivity|].
  rewrite !errors_logged_app, find_class_trace.
  unfold errors_logged. simpl. lia.
Qed.

Lemma unresolvable_type_gives_empty_namespace_witness :
  exists t',
    class_namespace cycle_heap
      (mkInterp (fun _ => Raises ImportError) (fun _ => Raises NameError)
                (fun _ => Raises TypeError))
      3 (VStr "no.such.Type") [("a", 0)] [] = (Returns [], t') /\
    errors_logged t' = S (errors_logged []).
Proof.
  apply unresolvable_type_gives_empty_namespace.
  - discriminate.
  - exists ImportError. split; reflexivity.
Defined.

(** C3 (as stated, refuted).  The string ['42'] names no type, and it is
    resolved all the same: [eval] gives the integer, no error is logged, and
    the test of the first object of the pool against it raises [TypeError]
    to the caller. *)
Lemma resolved_value_that_is_no_type :
  let I := mkInterp (fun _ => Raises ImportError)
                    (fun src => if String.eqb src "42" then Returns (VObj 1)
                                else Raises NameError)
                    (fun _ => Raises TypeError) in
  let run := class_namespace literal_heap I 3 (VStr "42") [("f", 0)] [] in
  "42" <> "function" /\
  fst (find_class I "42" []) = Returns (VObj 1) /\
  obj_classes (deref literal_heap 1) = ["int"; "object"] /\
  fst run = Raises TypeError /\
  errors_logged (snd run) = 0.
Proof.
  split; [discriminate|]. repeat split; reflexivity.
Qed.

Lemma flat_app a b : flat (a ++ b) = flat a ++ flat b.
Proof. unfold flat. apply map_app. Qed.

Lemma keys_flat a : keys (flat a) = keys a.
Proof. unfold keys, flat. rewrite map_map. reflexivity. Qed.

(** The last loop of [class_namespace] with the marker ['function'], over a
    pool with one binding per name: the functions, in the order of the
    pool. *)
Lemma select_function h items :
  forall acc t,
    NoDup (keys acc ++ keys items) ->
    fst (select h (VStr "function") items (flat acc) t) =
    Returns (flat (acc ++ filter (fun p => isfunction (deref h (snd p))) items)).
Proof.
  induction items as [|[name obj] rest IH]; intros acc t Hnd.
  - simpl. rewrite app_nil_r. reflexivity.
  - simpl. unfold mbind, lift, include. simpl.
    destruct (isfunction (deref h obj)) eqn:Hf.
    + unfold emit. unfold ns_setattr. rewrite dict_set_fresh.
      * change (flat acc ++ [(name, Obj obj)]) with
          (flat acc ++ flat [(name, obj)]).
        rewrite <- flat_app, IH.
        -- rewrite <- app_assoc. reflexivity.
        -- unfold keys in *. rewrite map_app, <- app_assoc. exact Hnd.
      * apply mem_false_iff. rewrite keys_flat.
        apply NoDup_remove_2 in Hnd. intros Hin. apply Hnd.
        apply in_or_app. left. exact Hin.
    + apply IH. apply NoDup_remove_1 in Hnd. exact Hnd.
Qed.

Lemma lookup_flat_filter (f : string * oid -> bool) items n o :
  is_dict items -> lookup items n = Some o ->
  lookup (flat (filter f items)) n = if f (n, o) then Some (Obj o) else None.
Proof.
  unfold is_dict. induction items as [|[k v] rest IH]; simpl; [discriminate|].
  intros Hnd. inversion Hnd as [|? ? Hnotin Hnd']; subst.
  destruct (String.eqb_spec n k) as [Heq|Hne]; intros Hl.
  - subst n. assert (v = o) by congruence. subst v.
    destruct (f (k, o)) eqn:Hf; simpl.
    + rewrite String.eqb_refl. reflexivity.
    + destruct (lookup (flat (filter f rest)) k) eqn:E; [|reflexivity].
      exfalso. apply Hnotin. apply lookup_In in E.
      apply (in_map fst) in E. simpl in E.
      change (In k (keys (flat (filter f rest)))) in E.
      rewrite keys_flat in E. unfold keys in E.
      apply in_map_iff in E. destruct E as [[k' v'] [Hk Hin]].
      apply filter_In in Hin. destruct Hin as [Hin _].
      simpl in Hk. subst k'. apply (in_map fst) in Hin. exact Hin.
  - destruct (f (k, v)); simpl.
    + apply String.eqb_neq in Hne. rewrite Hne. apply IH; assumption.
    + apply IH; assumption.
Qed.

Lemma expand_is_dict h fuel (s s' : Scope) :
  is_dict s -> expand h fuel s = Returns s' -> is_dict s'.
Proof.
  intros Hd He. unfold expand in He.
  destruct (expand_items h fuel s (s, [])) as [[S C]| | |] eqn:Hrun;
    simpl in He; try discriminate.
  injection He as <-. apply expand_items_sound in Hrun.
  destruct (items_frame h _ _ _ Hrun) as [_ [_ Hk]]. apply Hk. exact Hd.
Qed.

Lemma lookup_flat_filter_none (f : string * oid -> bool) items n :
  lookup items n = None -> lookup (flat (filter f items)) n = None.
Proof.
  induction items as [|[k v] rest IH]; simpl; [reflexivity|].
  destruct (String.eqb n k) eqn:E; [discriminate|].
  intros Hl. destruct (f (k, v)); simpl; [rewrite E|]; auto.
Qed.

Lemma class_namespace_function h I fuel scope t :
  fst (class_namespace h I fuel (VStr "function") scope t) =
  match expand h fuel scope with
  | Returns expanded =>
      fst (select h (VStr "function") expanded []
             (t ++ [Log DEBUG "Create class_namespace cls=%s, scope=%s"]))
  | Raises e => Raises e
  | OutOfFuel => OutOfFuel
  | Unmodelled => Unmodelled
  end.
Proof.
  unfold class_namespace, resolve_cls, mbind, emit, ret, lift. simpl.
  destruct (expand h fuel scope); reflexivity.
Qed.

(** C5.  With the type marker ['function'] the build binds exactly the plain
    functions of the expanded scope, in its order: a name of the expanded
    scope is bound, to its object, if and only if the object is a plain
    function, and an instance of any other class is left out even when its
    class defines [__call__]. *)
Theorem function_marker_selects_plain_functions h I fuel (scope : Scope) t :
  is_dict scope ->
  forall expanded,
    expand h fuel scope = Returns expanded ->
    exists ns,
      fst (class_namespace h I fuel (VStr "function") scope t) = Returns ns /\
      ns = flat (filter (fun p => isfunction (deref h (snd p))) expanded) /\
      (forall n o, lookup expanded n = Some o ->
         ns_getattr ns n =
         if isfunction (deref h o) then Some (Obj o) else None) /\
      (forall n o, lookup expanded n = Some o ->
         obj_call (deref h o) = true -> isfunction (deref h o) = false ->
         ns_getattr ns n = None) /\
      (forall n, lookup expanded n = None -> ns_getattr ns n = None).
Proof.
  intros Hd expanded He.
  pose proof (expand_is_dict h fuel scope expanded Hd He) as Hde.
  exists (flat (filter (fun p => isfunction (deref h (snd p))) expanded)).
  split; [|split; [reflexivity|split; [|split]]].
  - rewrite class_namespace_function, He.
    change (@nil (string * NsItem)) with (flat []).
    rewrite select_function; [reflexivity|]. exact Hde.
  - intros n o Hl. unfold ns_getattr.
    rewrite (lookup_flat_filter _ expanded n o Hde Hl). reflexivity.
  - intros n o Hl _ Hf. unfold ns_getattr.
    rewrite (lookup_flat_filter _ expanded n o Hde Hl). simpl.
    rewrite Hf. reflexivity.
  - intros n Hl. unfold ns_getattr. apply lookup_flat_filter_none. exact Hl.
Qed.

Lemma function_marker_selects_plain_functions_witness :
  exists ns,
    fst (class_namespace functions_heap
           (mkInterp (fun _ => Raises ImportError) (fun _ => Raises NameError)
                     (fun _ => Raises TypeError))
           3 (VStr "function") [("f", 0); ("c", 1)] []) = Returns ns /\
    ns = flat (filter (fun p => isfunction (deref functions_heap (snd p)))
                 [("f", 0); ("c", 1)]) /\
    (forall n o, lookup [("f", 0); ("c", 1)] n = Some o ->
       ns_getattr ns n =
       if isfunction (deref functions_heap o) then Some (Obj o) else None) /\
    (forall n o, lookup [("f", 0); ("c", 1)] n = Some o ->
       obj_call (deref functions_heap o) = true ->
       isfunction (deref functions_heap o) = false ->
       ns_getattr ns n = None) /\
    (forall n, lookup [("f", 0); ("c", 1)] n = None -> ns_getattr ns n = None).
Proof.
  apply function_marker_selects_plain_functions.
  - unfold is_dict. simpl. repeat constructor; simpl; intuition discriminate.
  - reflexivity.
Defined.

(** C8.  Running the type-filtered builder twice with the same type over the
    same scope gives the same namespace, bindings and order alike: the
    second run, which starts from the trace the first one left, ends as the
    first did; and so it does when it is handed the pool as the expansion of
    the first run left it. *)
Theorem class_namespace_twice_same h I fuel cls (scope : Scope) t :
  List.length h < fuel ->
  let first := class_namespace h I fuel cls scope t in
  fst (class_namespace h I fuel cls scope (snd first)) = fst first /\
  (forall expanded,
     expand h fuel scope = Returns expanded ->
     fst (class_namespace h I fuel cls expanded (snd first)) = fst first).
Proof.
  intros Hf first. split.
  - rewrite (oblivious_outcome _ _ (snd first)
               (oblivious_class_namespace I h fuel cls scope)).
    unfold first.
    rewrite (oblivious_outcome _ _ t
               (oblivious_class_namespace I h fuel cls scope)).
    reflexivity.
  - intros expanded He.
    rewrite (oblivious_outcome _ _ (snd first)
               (oblivious_class_namespace I h fuel cls expanded)).
    unfold first.
    rewrite (oblivious_outcome _ _ t
               (oblivious_class_namespace I h fuel cls scope)).
    unfold class_namespace, mbind, emit.
    destruct (resolve_cls I cls _) as [[[c|]| | |] t1]; try reflexivity.
    unfold lift.
    rewrite (expand_idempotent h fuel scope expanded Hf He), He. reflexivity.
Qed.

Lemma class_namespace_twice_same_witness :
  let I := mkInterp (fun _ => Raises ImportError) (fun _ => Returns (VType Device))
                    (fun _ => Raises TypeError) in
  let first := class_namespace cycle_heap I 3 (VStr "Device") [("x", 0)] [] in
  fst (class_namespace cycle_heap I 3 (VStr "Device") [("x", 0)] (snd first))
    = fst first /\
  (forall expanded,
     expand cycle_heap 3 [("x", 0)] = Returns expanded ->
     fst (class_namespace cycle_heap I 3 (VStr "Device") expanded (snd first))
       = fst first).
Proof.
  intros I.
  apply (class_namespace_twice_same cycle_heap I 3 (VStr "Device") [("x", 0)] []).
  simpl. lia.
Defined.

(* ================================================================== *)
(** ** Properties of the metadata tree *)

(** The walk of [place] ends at the node the consumed keys lead to, and
    binds the object there under the name left by the stripping. *)
Lemma place_walk obj keys :
  forall ns name ns',
    place ns keys name obj = Returns ns' ->
    exists node,
      walk ns' (key_path keys) = Some node /\
      ns_getattr node (leaf_name name (key_path keys)) = Some (Obj obj).
Proof.
  induction keys as [|key rest IH]; intros ns name ns' Hp.
  - simpl in Hp. injection Hp as <-. exists (ns_setattr ns name (Obj obj)).
    split; [reflexivity|]. apply lookup_dict_set_same.
  - destruct key as [|k|z].
    + simpl in Hp. injection Hp as <-. exists (ns_setattr ns name (Obj obj)).
      split; [reflexivity|]. apply lookup_dict_set_same.
    + simpl in Hp.
      destruct (ns_getattr
                  (if ns_hasattr ns k then ns else ns_setattr ns k (Space []))
                  k) as [[o|sub]|]; try discriminate.
      destruct (place sub rest (strip_prefix name k) obj) as [sub'| | |] eqn:Hs;
        simpl in Hp; try discriminate.
      injection Hp as <-.
      destruct (IH _ _ _ Hs) as [node [Hw Hg]].
      exists node. split; [|exact Hg].
      simpl. unfold ns_getattr, ns_setattr.
      rewrite lookup_dict_set_same. exact Hw.
    + simpl in Hp. discriminate.
Qed.

Lemma leaf_name_unchanged name path :
  Forall (fun k => PyStr.startswith name k = false) path ->
  leaf_name name path = name.
Proof.
  unfold leaf_name. induction 1 as [|k rest Hk _ IH]; simpl; [reflexivity|].
  unfold strip_prefix at 2. rewrite Hk. exact IH.
Qed.

(** C4 (as stated, refuted).  An object bound as [mfx_det] and classified
    via its metadata record ([beamline] is [MFX]) is bound at the node [mfx]
    under the stripped name [det], not under its bound name. *)
Lemma metadata_object_name_is_stripped :
  obj_md (deref metadata_heap 0) <> None /\
  fst (metadata_namespace metadata_heap ["beamline"] [("mfx_det", 0)] [])
    = Returns [("mfx", Space [("det", Obj 0)])] /\
  "det" <> "mfx_det".
Proof.
  split; [discriminate|]. split; [reflexivity|discriminate].
Qed.

(** C4 (amended).  The stripping is applied in both modes: an object the
    build classifies, through its metadata record or through the split of
    its name, is bound at the node its key path leads to under its bound
    name with the prefix of each consumed key stripped in turn; the name is
    the bound name itself when no consumed key is a prefix of it. *)
Theorem leaf_name_strips_consumed_keys h md ns name obj raw t ns' t' :
  raw_keys h md name obj = Some raw ->
  hd MdNone raw <> MdNone ->
  add_object h md ns name obj t = (Returns ns', t') ->
  let path := key_path (map lower_key raw) in
  (exists node,
     walk ns' path = Some node /\
     ns_getattr node (leaf_name name path) = Some (Obj obj)) /\
  (Forall (fun k => PyStr.startswith name k = false) path ->
   leaf_name name path = name).
Proof.
  intros Hraw Hhd Hadd path. split; [|apply leaf_name_unchanged].
  unfold add_object in Hadd. rewrite Hraw in Hadd.
  destruct raw as [|k0 rest]; [discriminate|].
  assert (Hp : place ns (map lower_key (k0 :: rest)) name obj = Returns ns').
  { destruct k0 as [|k|z]; [exfalso; apply Hhd; reflexivity| |];
      unfold mbind, emit, lift in Hadd;
      injection Hadd as Hadd _; exact Hadd. }
  exact (place_walk obj _ ns name ns' Hp).
Qed.

Lemma leaf_name_strips_consumed_keys_witness :
  let path := key_path (map lower_key [MdStr "MFX"]) in
  (exists node,
     walk [("mfx", Space [("det", Obj 0)])] path = Some node /\
     ns_getattr node (leaf_name "mfx_det" path) = Some (Obj 0)) /\
  (Forall (fun k => PyStr.startswith "mfx_det" k = false) path ->
   leaf_name "mfx_det" path = "mfx_det").
Proof.
  apply (leaf_name_strips_consumed_keys metadata_heap ["beamline"] []
           "mfx_det" 0 [MdStr "MFX"] []
           [("mfx", Space [("det", Obj 0)])]
           [Log DEBUG "Add mfx_det to metadata namespace"]).
  - reflexivity.
  - discriminate.
  - reflexivity.
Defined.

(** C6.  In the name-split mode an object bound as [tst_det_1], without
    metadata record, built with a list of two fields, gets the key path
    [tst], [det] and is bound at that node under the leaf name [1], the
    prefix [tst_det] being stripped from its name. *)
Theorem name_split_places_tst_det_1 h md obj t :
  List.length md = 2 ->
  obj_md (deref h obj) = None ->
  raw_keys h md "tst_det_1" obj = Some [MdStr "tst"; MdStr "det"] /\
  leaf_name "tst_det_1" ["tst"; "det"] = "1" /\
  metadata_namespace h md [("tst_det_1", obj)] t =
    (Returns [("tst", Space [("det", Space [("1", Obj obj)])])],
     t ++ [Log DEBUG "Create metadata_namespace md=%s, scope=%s";
           Log DEBUG "Add tst_det_1 to metadata namespace"]).
Proof.
  intros Hlen Hmd.
  destruct md as [|a [|b [|c md]]]; simpl in Hlen; try discriminate.
  assert (Hraw : raw_keys h [a; b] "tst_det_1" obj
                 = Some [MdStr "tst"; MdStr "det"]).
  { unfold raw_keys. rewrite Hmd. reflexivity. }
  split; [exact Hraw|]. split; [reflexivity|].
  unfold metadata_namespace, add_objects, add_object.
  rewrite Hraw. unfold mbind, emit, lift, ret. simpl.
  rewrite <- app_assoc. reflexivity.
Qed.

Lemma name_split_places_tst_det_1_witness :
  raw_keys functions_heap ["beamline"; "stand"] "tst_det_1" 1
    = Some [MdStr "tst"; MdStr "det"] /\
  leaf_name "tst_det_1" ["tst"; "det"] = "1" /\
  metadata_namespace functions_heap ["beamline"; "stand"] [("tst_det_1", 1)] [] =
    (Returns [("tst", Space [("det", Space [("1", Obj 1)])])],
     [] ++ [Log DEBUG "Create metadata_namespace md=%s, scope=%s";
            Log DEBUG "Add tst_det_1 to metadata namespace"]).
Proof.
  apply name_split_places_tst_det_1; reflexivity.
Defined.

(* ================================================================== *)
(** ** Properties of the helpers of utils.py *)

Lemma prefix_dot s :
  String.prefix "." s = true <->
  exists rest, list_ascii_of_string s = "."%char :: rest.
Proof.
  destruct s as [|c s].
  - simpl. split; [discriminate|]. intros [rest H]. discriminate.
  - change (String.prefix "." (String c s))
      with (match Ascii.ascii_dec "." c with
            | left _ => String.prefix "" s
            | right _ => false
            end).
    change (list_ascii_of_string (String c s))
      with (c :: list_ascii_of_string s).
    destruct (Ascii.ascii_dec "." c) as [Heq|Hne].
    + subst c. split; [|destruct s; reflexivity].
      intros _. eexists. reflexivity.
    + split; [discriminate|]. intros [rest H]. congruence.
Qed.

(** ['.' in s] holds exactly when a character of [s] is a dot. *)
Lemma contains_dot s :
  PyStr.contains "." s = true <-> In "."%char (list_ascii_of_string s).
Proof.
  induction s as [|c s IH].
  - simpl. split; [discriminate|tauto].
  - change (PyStr.contains "." (String c s))
      with (String.prefix "." (String c s) || PyStr.contains "." s).
    rewrite orb_true_iff, IH, prefix_dot. simpl. split.
    + intros [[rest H]|H]; [left; congruence|right; exact H].
    + intros [->|H]; [left; eexists; reflexivity|right; exact H].
Qed.

(** C9.  For a class path without a dot [find_class] evaluates the string
    and returns whatever the evaluation yields, a type or not, and imports
    nothing; the lookup along a dotted path is taken when, and only when,
    the string contains a dot. *)
Theorem find_class_evaluates_undotted_names I class_path t :
  (~ In "."%char (list_ascii_of_string class_path) ->
   find_class I class_path t = (py_eval I class_path, t ++ [Eval class_path])) /\
  (In "."%char (list_ascii_of_string class_path) ->
   find_class I class_path t = find_object I class_path t).
Proof.
  unfold find_class. split; intros H.
  - destruct (PyStr.contains "." class_path) eqn:E.
    + exfalso. apply H. apply contains_dot. exact E.
    + reflexivity.
  - apply contains_dot in H. rewrite H. reflexivity.
Qed.

Lemma find_class_evaluates_undotted_names_witness :
  let I := mkInterp (fun _ => Raises ImportError) (fun _ => Returns (VObj 0))
                    (fun _ => Raises TypeError) in
  find_class I "42" [] = (Returns (VObj 0), [] ++ [Eval "42"]) /\
  find_class I "ophyd.device.Device" []
    = find_object I "ophyd.device.Device" [].
Proof.
  intros I. split.
  - apply (find_class_evaluates_undotted_names I "42" []).
    simpl. intuition discriminate.
  - apply (find_class_evaluates_undotted_names I "ophyd.device.Device" []).
    simpl. tauto.
Defined.

Section Strip.

Variable p : ascii -> bool.

Lemma dropwhile_split l :
  exists pre,
    l = pre ++ PyStr.dropwhile p l /\
    Forall (fun c => p c = true) pre /\
    (forall c rest, PyStr.dropwhile p l = c :: rest -> p c = false).
Proof.
  induction l as [|c l [pre [Hl [Hpre Hhd]]]].
  - exists []. repeat split; [constructor|]. intros c rest H. discriminate.
  - simpl. destruct (p c) eqn:Hc.
    + exists (c :: pre). repeat split.
      * simpl. rewrite <- Hl. reflexivity.
      * constructor; assumption.
      * exact Hhd.
    + exists []. repeat split; [constructor|].
      intros c' rest [= <- _]. exact Hc.
Qed.

(** Stripping on both sides: what is removed is made of characters of the
    set, and what is left neither starts nor ends with one. *)
Lemma strip_both_split l :
  let kept := rev (PyStr.dropwhile p (rev (PyStr.dropwhile p l))) in
  exists front back,
    l = front ++ kept ++ back /\
    Forall (fun c => p c = true) front /\
    Forall (fun c => p c = true) back /\
    (forall c rest, kept = c :: rest -> p c = false) /\
    (forall rest c, kept = rest ++ [c] -> p c = false).
Proof.
  intros kept.
  destruct (dropwhile_split l) as [front [Hl [Hfront Hhd]]].
  destruct (dropwhile_split (rev (PyStr.dropwhile p l)))
    as [back [Hm [Hback Hlast]]].
  assert (Hmid : PyStr.dropwhile p l = kept ++ rev back).
  { rewrite <- (rev_involutive (PyStr.dropwhile p l)), Hm, rev_app_distr.
    reflexivity. }
  exists front, (rev back). repeat split.
  - rewrite <- Hmid. exact Hl.
  - exact Hfront.
  - apply Forall_rev. exact Hback.
  - intros c rest Hk. apply (Hhd c (rest ++ rev back)).
    rewrite Hmid, Hk. reflexivity.
  - intros rest c Hk. apply (Hlast c (rev rest)).
    unfold kept in Hk. apply (f_equal (@rev ascii)) in Hk.
    rewrite rev_involutive, rev_app_distr in Hk. exact Hk.
Qed.

End Strip.

Lemma oblivious_do_call I f : oblivious (do_call I f).
Proof.
  unfold do_call. apply oblivious_bind; intros;
    auto using oblivious_emit, oblivious_lift.
Qed.

(** The first thing [extract_objs] does with the interpreter is to import
    the stripped module name. *)
Lemma load_target_first_import I module_name call_me :
  exists r t',
    load_target I module_name call_me [] = (r, Import module_name :: t').
Proof.
  unfold load_target.
  set (handler := fun _ : exn =>
         my_obj <~ find_object I module_name ;;
         (if call_me
          then v <~ do_call I my_obj ;;
               ret (inr (dict_set [] (last (PyStr.split "." module_name) "") v))
          else ret (inr (dict_set [] (last (PyStr.split "." module_name) "")
                           my_obj)))
         : M (PyModule + dict PyVal)).
  assert (Hh : forall e, oblivious (handler e)).
  { intros e. unfold handler.
    apply oblivious_bind; [apply oblivious_find_object|].
    intros v. destruct call_me; [|apply oblivious_ret].
    apply oblivious_bind; [apply oblivious_do_call|].
    intros w. apply oblivious_ret. }
  unfold try_except, mbind at 1, do_import, mbind at 1, emit, lift, ret.
  simpl.
  destruct (import_module I module_name) as [m|e| |];
    try (eexists; eexists; reflexivity).
  destruct (is_ImportError e).
  - rewrite (Hh e [Import module_name]).
    destruct (fst (handler e [])) as [v|e'| |];
      try (eexists; eexists; reflexivity).
    destruct (is_Exception e'); eexists; eexists; reflexivity.
  - destruct (is_Exception e); eexists; eexists; reflexivity.
Qed.

Lemma oblivious_load_target I module_name call_me :
  oblivious (load_target I module_name call_me).
Proof.
  unfold load_target. apply oblivious_try.
  - apply oblivious_try.
    + unfold do_import.
      repeat (apply oblivious_bind; intros);
        auto using oblivious_emit, oblivious_lift, oblivious_ret.
    + intros e. apply oblivious_bind; [apply oblivious_find_object|].
      intros v. destruct call_me; [|apply oblivious_ret].
      apply oblivious_bind; [apply oblivious_do_call|].
      intros w. apply oblivious_ret.
  - intros e. apply oblivious_bind; [apply oblivious_emit|].
    intros _. apply oblivious_ret.
Qed.

Lemma oblivious_extract_objs I module_name :
  oblivious (extract_objs I module_name).
Proof.
  unfold extract_objs. destruct (import_target module_name) as [name call_me].
  apply oblivious_bind; [apply oblivious_load_target|].
  intros [module|objs]; [|apply oblivious_ret].
  apply oblivious_bind; [|intros; apply oblivious_lift].
  destruct (mod_all module) as [[items|]|];
    [apply oblivious_ret|apply oblivious_lift|apply oblivious_lift].
Qed.

Lemma bind_first_event (A B : Type) (m : M A) (k : A -> M B) ev :
  (exists r t', m [] = (r, ev :: t')) ->
  (forall a, oblivious (k a)) ->
  exists r t', mbind m k [] = (r, ev :: t').
Proof.
  intros [r [t' H]] Hk. unfold mbind. rewrite H.
  destruct r as [a| | |]; try (eexists; eexists; reflexivity).
  rewrite (Hk a (ev :: t')). eexists. eexists. reflexivity.
Qed.

Lemma extract_objs_first_import I module_name t :
  exists r t',
    extract_objs I module_name t =
    (r, t ++ Import (fst (import_target module_name)) :: t').
Proof.
  rewrite (oblivious_extract_objs I module_name t).
  assert (H0 : exists r t',
             extract_objs I module_name [] =
             (r, Import (fst (import_target module_name)) :: t')).
  { unfold extract_objs.
    destruct (import_target module_name) as [name call_me]. cbn [fst].
    apply bind_first_event; [apply load_target_first_import|].
    intros [module|objs]; [|apply oblivious_ret].
    apply oblivious_bind; [|intros; apply oblivious_lift].
    destruct (mod_all module) as [[items|]|];
      [apply oblivious_ret|apply oblivious_lift|apply oblivious_lift]. }
  destruct H0 as [r [t' H0]]. rewrite H0. cbn [fst snd].
  exists r, t'. reflexivity.
Qed.

(** C10.  Before it imports, [extract_objs] removes from the module name
    every leading and every trailing character of the set made of the dot,
    [p] and [y], not merely a final extension: what it keeps neither starts
    nor ends with such a character; the import is that of the kept name
    (once more stripped of parentheses when it holds a call mark); [numpy]
    is imported as [num] and [happy.py] as [ha]. *)
Theorem extract_objs_strips_the_characters_of_py :
  (forall module_name,
     let kept := list_ascii_of_string (PyStr.strip module_name ".py") in
     exists front back,
       list_ascii_of_string module_name = front ++ kept ++ back /\
       Forall in_py_chars front /\ Forall in_py_chars back /\
       (forall c rest, kept = c :: rest -> ~ in_py_chars c) /\
       (forall rest c, kept = rest ++ [c] -> ~ in_py_chars c)) /\
  (forall module_name,
     fst (import_target module_name) =
     if PyStr.contains "()" (PyStr.strip module_name ".py")
     then PyStr.strip (PyStr.strip module_name ".py") "()"
     else PyStr.strip module_name ".py") /\
  (forall I module_name t,
     exists r t',
       extract_objs I module_name t =
       (r, t ++ Import (fst (import_target module_name)) :: t')) /\
  import_target "numpy" = ("num", false) /\
  import_target "happy.py" = ("ha", false).
Proof.
  split; [|split; [|split; [|split; reflexivity]]].
  - intros module_name kept.
    destruct (strip_both_split (fun c => PyStr.mem_ascii c py_chars)
                (list_ascii_of_string module_name))
      as [front [back [Hl [Hf [Hb [Hhd Hlast]]]]]].
    assert (Hk : kept =
                 rev (PyStr.dropwhile (fun c => PyStr.mem_ascii c py_chars)
                        (rev (PyStr.dropwhile
                                (fun c => PyStr.mem_ascii c py_chars)
                                (list_ascii_of_string module_name))))).
    { unfold kept, PyStr.strip. rewrite list_ascii_of_string_of_list_ascii.
      reflexivity. }
    exists front, back. rewrite Hk. repeat split; try assumption.
    + intros c rest H Hin. unfold in_py_chars in Hin.
      rewrite (Hhd c rest H) in Hin. discriminate.
    + intros rest c H Hin. unfold in_py_chars in Hin.
      rewrite (Hlast rest c H) in Hin. discriminate.
  - intros module_name. unfold import_target.
    destruct (PyStr.contains "()" (PyStr.strip module_name ".py"));
      reflexivity.
  - apply extract_objs_first_import.
Qed.

Lemma extract_objs_strips_the_characters_of_py_witness :
  (exists front back,
     list_ascii_of_string "happy.py" =
     front ++ list_ascii_of_string (PyStr.strip "happy.py" ".py") ++ back /\
     Forall in_py_chars front /\ Forall in_py_chars back) /\
  fst (import_target "numpy") = "num".
Proof.
  destruct extract_objs_strips_the_characters_of_py as [Hsplit [Htarget _]].
  split.
  - destruct (Hsplit "happy.py") as [front [back [Hl [Hf [Hb _]]]]].
    exists front, back. repeat split; assumption.
  - rewrite (Htarget "numpy"). reflexivity.
Defined.

(* ================================================================== *)
(** ** Properties of the console level (log_setup.py) *)

Section Console.

Import LogSetup.

Lemma get_console_handler_outcome root :
  (exists i, get_console_handler root = Returns i) \/
  get_console_handler root = Raises RuntimeError.
Proof.
  induction root as [|hd rest IH]; simpl; [right; reflexivity|].
  destruct (is_console hd); [left; eexists; reflexivity|].
  destruct IH as [[i Hi]|Hr]; [rewrite Hi; left; eexists; reflexivity|].
  rewrite Hr. right. reflexivity.
Qed.

Lemma get_console_handler_found root :
  forall i,
    get_console_handler root = Returns i ->
    (exists hd, nth_error root i = Some hd /\ is_console hd = true) /\
    (forall j hd, j < i -> nth_error root j = Some hd -> is_console hd = false).
Proof.
  induction root as [|hd rest IH]; simpl; intros i H; [discriminate|].
  destruct (is_console hd) eqn:Hc.
  - injection H as <-. split; [exists hd; auto|]. intros j ? Hj. lia.
  - destruct (get_console_handler rest) as [k| | |]; simpl in H;
      try discriminate.
    injection H as <-. destruct (IH k eq_refl) as [Hk Hbefore]. split.
    + exact Hk.
    + intros [|j] x Hj Hx; simpl in Hx.
      * injection Hx as <-. exact Hc.
      * apply (Hbefore j x); [lia|exact Hx].
Qed.

Lemma get_console_handler_none root :
  get_console_handler root = Raises RuntimeError <->
  existsb is_console root = false.
Proof.
  induction root as [|hd rest IH]; simpl; [tauto|].
  destruct (is_console hd); simpl; [split; discriminate|].
  rewrite <- IH.
  destruct (get_console_handler rest) as [k| | |]; simpl;
    split; congruence.
Qed.

Lemma get_console_handler_set_level root level :
  forall k, get_console_handler (set_level root k level)
            = get_console_handler root.
Proof.
  induction root as [|hd rest IH]; intros [|k]; simpl; try reflexivity.
  rewrite IH. reflexivity.
Qed.

Lemma level_of_set_level root level :
  forall i, i < List.length root -> level_of (set_level root i level) i = level.
Proof.
  unfold level_of.
  induction root as [|hd rest IH]; intros [|i] Hi; simpl in *;
    try (exfalso; lia).
  - reflexivity.
  - apply IH. lia.
Qed.

Lemma set_level_other root level :
  forall i j, j <> i -> nth_error (set_level root i level) j = nth_error root j.
Proof.
  induction root as [|hd rest IH]; intros [|i] [|j] Hne; simpl;
    try reflexivity; try congruence.
  apply IH. congruence.
Qed.

Lemma set_level_names root level :
  forall i, map handler_name (set_level root i level) = map handler_name root.
Proof.
  induction root as [|hd rest IH]; intros [|i]; simpl; try reflexivity.
  rewrite IH. reflexivity.
Qed.

Lemma set_level_twice root a b :
  forall i, set_level (set_level root i a) i b = set_level root i b.
Proof.
  induction root as [|hd rest IH]; intros [|i]; simpl; try reflexivity.
  rewrite IH. reflexivity.
Qed.

Lemma set_level_back root :
  forall i, set_level root i (level_of root i) = root.
Proof.
  unfold level_of.
  induction root as [|hd rest IH]; intros [|i]; simpl; try reflexivity.
  - destruct hd. reflexivity.
  - rewrite IH. reflexivity.
Qed.

Lemma console_in_range root i :
  get_console_handler root = Returns i -> i < List.length root.
Proof.
  intros H. destruct (get_console_handler_found root i H) as [[hd [Hn _]] _].
  apply nth_error_Some. congruence.
Qed.

End Console.

Import LogSetup.

(** X1.  [get_console_handler] returns the first handler of the root logger
    whose name is [console], and raises [RuntimeError] exactly when no
    handler has that name. *)
Theorem console_handler_is_first_named_console root :
  (forall i,
     get_console_handler root = Returns i <->
     (exists hd, nth_error root i = Some hd /\ is_console hd = true) /\
     (forall j hd, j < i -> nth_error root j = Some hd ->
                   is_console hd = false)) /\
  (get_console_handler root = Raises RuntimeError <->
   forall hd, In hd root -> is_console hd = false).
Proof.
  split.
  - intros i. split; [apply get_console_handler_found|].
    intros [[hd [Hi Hc]] Hbefore].
    destruct (get_console_handler_outcome root) as [[k Hk]|Hr].
    + destruct (get_console_handler_found root k Hk) as [[hk [Hnk Hck]] Hbk].
      destruct (Nat.lt_trichotomy k i) as [Hlt|[Heq|Hgt]].
      * rewrite (Hbefore k hk Hlt Hnk) in Hck. discriminate.
      * subst k. exact Hk.
      * rewrite (Hbk i hd Hgt Hi) in Hc. discriminate.
    + apply get_console_handler_none in Hr.
      assert (Hex : existsb is_console root = true).
      { apply existsb_exists. exists hd. split; [|exact Hc].
        eapply nth_error_In. exact Hi. }
      congruence.
  - rewrite get_console_handler_none. split.
    + intros Hn hd Hin. destruct (is_console hd) eqn:Hc; [|reflexivity].
      assert (Hex : existsb is_console root = true).
      { apply existsb_exists. exists hd. auto. }
      congruence.
    + intros Hall. destruct (existsb is_console root) eqn:E; [|reflexivity].
      apply existsb_exists in E. destruct E as [hd [Hin Hc]].
      rewrite (Hall hd Hin) in Hc. discriminate.
Qed.

Lemma console_handler_is_first_named_console_witness :
  get_console_handler two_handlers = Returns 1 /\
  get_console_handler no_console = Raises RuntimeError.
Proof.
  split.
  - apply (proj1 (console_handler_is_first_named_console two_handlers)).
    split.
    + eexists. split; reflexivity.
    + intros [|[|j]] hd Hj Hn; [injection Hn as <-; reflexivity|lia|lia].
  - apply (proj2 (console_handler_is_first_named_console no_console)).
    intros hd [<-|[<-|[]]]; reflexivity.
Defined.

(** X2.  When the root logger has a console handler, [set_console_level]
    returns, [get_console_level] then reads the level that was set, and the
    call changes nothing else: the names of the handlers and every handler
    other than the console are as before. *)
Theorem set_console_level_then_get root level i :
  get_console_handler root = Returns i ->
  exists root',
    set_console_level level root = (Returns tt, root') /\
    get_console_level root' = (Returns level, root') /\
    map handler_name root' = map handler_name root /\
    (forall j, j <> i -> nth_error root' j = nth_error root j).
Proof.
  intros Hi. exists (set_level root i level).
  unfold set_console_level, get_console_level. rewrite Hi.
  rewrite get_console_handler_set_level, Hi. simpl.
  rewrite level_of_set_level by (eapply console_in_range; eauto).
  repeat split.
  - apply set_level_names.
  - intros j Hj. apply set_level_other. exact Hj.
Qed.

Lemma set_console_level_then_get_witness :
  exists root',
    set_console_level 30 two_handlers = (Returns tt, root') /\
    get_console_level root' = (Returns 30%Z, root') /\
    map handler_name root' = map handler_name two_handlers /\
    (forall j, j <> 1 -> nth_error root' j = nth_error two_handlers j).
Proof.
  apply (set_console_level_then_get two_handlers 30 1). reflexivity.
Defined.

(** X3.  Without a console handler every function of the module that reads
    or sets the console level raises [RuntimeError] and leaves the handlers
    as they are; [debug_context] and [debug_wrapper] raise before the body
    is run. *)
Theorem no_console_handler_raises root (A : Type) (body : L A) level debug :
  (forall hd, In hd root -> is_console hd = false) ->
  get_console_level root = (Raises RuntimeError, root) /\
  set_console_level level root = (Raises RuntimeError, root) /\
  debug_mode debug root = (Raises RuntimeError, root) /\
  debug_context body root = (Raises RuntimeError, root) /\
  debug_wrapper body root = (Raises RuntimeError, root).
Proof.
  intros Hall.
  assert (Hr : get_console_handler root = Raises RuntimeError).
  { apply get_console_handler_none.
    destruct (existsb is_console root) eqn:E; [|reflexivity].
    apply existsb_exists in E. destruct E as [hd [Hin Hc]].
    rewrite (Hall hd Hin) in Hc. discriminate. }
  assert (Hg : get_console_level root = (Raises RuntimeError, root)).
  { unfold get_console_level. rewrite Hr. reflexivity. }
  assert (Hs : forall l, set_console_level l root = (Raises RuntimeError, root)).
  { intros l. unfold set_console_level. rewrite Hr. reflexivity. }
  split; [exact Hg|]. split; [apply Hs|]. split; [|split].
  - destruct debug as [[|]|]; unfold debug_mode, lbind;
      rewrite ?Hs, ?Hg; reflexivity.
  - unfold debug_context, lbind. rewrite Hg. reflexivity.
  - unfold debug_wrapper, debug_context, lbind. rewrite Hg. reflexivity.
Qed.

Lemma no_console_handler_raises_witness :
  get_console_level no_console = (Raises RuntimeError, no_console) /\
  set_console_level 10 no_console = (Raises RuntimeError, no_console) /\
  debug_mode None no_console = (Raises RuntimeError, no_console) /\
  debug_context (lret 5) no_console = (Raises RuntimeError, no_console) /\
  debug_wrapper (lret 5) no_console = (Raises RuntimeError, no_console).
Proof.
  apply (no_console_handler_raises no_console nat (lret 5) 10 None).
  intros hd [<-|[<-|[]]]; reflexivity.
Defined.

Lemma debug_mode_ask root i :
  get_console_handler root = Returns i ->
  debug_mode None root
  = (Returns (Some (Z.leb (level_of root i) logging_DEBUG)), root).
Proof.
  intros Hi. unfold debug_mode, lbind, get_console_level, lret.
  rewrite Hi. reflexivity.
Qed.

Lemma debug_mode_set root i b :
  get_console_handler root = Returns i ->
  debug_mode (Some b) root
  = (Returns None,
     set_level root i (if b then logging_DEBUG else logging_INFO)).
Proof.
  intros Hi. destruct b; unfold debug_mode, lbind, set_console_level, lret;
    rewrite Hi; reflexivity.
Qed.

(** X4.  With a console handler in place, [debug_mode()] tells whether the
    console level is at most [logging.DEBUG] and changes nothing;
    [debug_mode(True)] sets the level to [DEBUG] and [debug_mode(False)]
    sets it to [INFO], whatever it was; asking after setting gives back the
    flag that was set. *)
Theorem debug_mode_set_then_ask root i b :
  get_console_handler root = Returns i ->
  debug_mode None root
  = (Returns (Some (Z.leb (level_of root i) logging_DEBUG)), root) /\
  exists root',
    debug_mode (Some b) root = (Returns None, root') /\
    level_of root' i = (if b then logging_DEBUG else logging_INFO) /\
    debug_mode None root' = (Returns (Some b), root').
Proof.
  intros Hi. split; [apply debug_mode_ask; exact Hi|].
  exists (set_level root i (if b then logging_DEBUG else logging_INFO)).
  assert (Hl : level_of (set_level root i
                           (if b then logging_DEBUG else logging_INFO)) i
               = (if b then logging_DEBUG else logging_INFO)).
  { apply level_of_set_level. eapply console_in_range; eauto. }
  split; [apply debug_mode_set; exact Hi|]. split; [exact Hl|].
  rewrite (debug_mode_ask _ i)
    by (rewrite get_console_handler_set_level; exact Hi).
  rewrite Hl. destruct b; reflexivity.
Qed.

Lemma debug_mode_set_then_ask_witness :
  debug_mode None two_handlers
  = (Returns (Some (Z.leb (level_of two_handlers 1) logging_DEBUG)),
     two_handlers) /\
  exists root',
    debug_mode (Some false) two_handlers = (Returns None, root') /\
    level_of root' 1 = logging_INFO /\
    debug_mode None root' = (Returns (Some false), root').
Proof.
  apply (debug_mode_set_then_ask two_handlers 1 false). reflexivity.
Defined.

(** X5.  A body run under [debug_context] starts in debug mode; when it
    returns and a console handler is still in place, the console level is
    set back to what it was before the block, and a body that leaves the
    handlers alone finds them restored exactly. *)
Theorem debug_context_restores_level root i (A : Type) (body : L A) a root2 k :
  get_console_handler root = Returns i ->
  body (set_level root i logging_DEBUG) = (Returns a, root2) ->
  get_console_handler root2 = Returns k ->
  debug_mode None (set_level root i logging_DEBUG)
  = (Returns (Some true), set_level root i logging_DEBUG) /\
  exists root3,
    debug_context body root = (Returns a, root3) /\
    get_console_level root3 = (Returns (level_of root i), root3) /\
    (root2 = set_level root i logging_DEBUG -> root3 = root).
Proof.
  intros Hi Hbody Hk.
  pose proof (console_in_range root i Hi) as Hri.
  pose proof (console_in_range root2 k Hk) as Hrk.
  split.
  - rewrite (debug_mode_ask _ i)
      by (rewrite get_console_handler_set_level; exact Hi).
    rewrite level_of_set_level by exact Hri. reflexivity.
  - exists (set_level root2 k (level_of root i)). split; [|split].
    + unfold debug_context. unfold lbind at 1. unfold get_console_level.
      rewrite Hi. cbn [obind]. unfold lbind at 1.
      rewrite (debug_mode_set root i true Hi). unfold lbind at 1.
      cbn [logging_DEBUG] in *. rewrite Hbody. unfold lbind, set_console_level.
      rewrite Hk. reflexivity.
    + unfold get_console_level.
      rewrite get_console_handler_set_level, Hk. cbn [obind].
      rewrite level_of_set_level by exact Hrk. reflexivity.
    + intros ->. rewrite get_console_handler_set_level, Hi in Hk.
      injection Hk as <-. rewrite set_level_twice. apply set_level_back.
Qed.

Lemma debug_context_restores_level_witness :
  debug_mode None (set_level two_handlers 1 logging_DEBUG)
  = (Returns (Some true), set_level two_handlers 1 logging_DEBUG) /\
  exists root3,
    debug_context (lret 5) two_handlers = (Returns 5, root3) /\
    get_console_level root3 = (Returns (level_of two_handlers 1), root3) /\
    (set_level two_handlers 1 logging_DEBUG
     = set_level two_handlers 1 logging_DEBUG -> root3 = two_handlers).
Proof.
  apply (debug_context_restores_level two_handlers 1 nat (lret 5) 5
           (set_level two_handlers 1 logging_DEBUG) 1); reflexivity.
Defined.

(** X6.  When the body raises, [debug_context] and [debug_wrapper] let the
    exception through and do not set the console level back: the handlers
    stay as the body left them, so that a body which did not touch them
    leaves the console in debug mode. *)
Theorem debug_context_not_restored_on_exception
  root i (A : Type) (body : L A) e root2 :
  get_console_handler root = Returns i ->
  body (set_level root i logging_DEBUG) = (Raises e, root2) ->
  debug_context body root = (Raises e, root2) /\
  debug_wrapper body root = (Raises e, root2) /\
  (root2 = set_level root i logging_DEBUG ->
   level_of root2 i = logging_DEBUG /\
   debug_mode None root2 = (Returns (Some true), root2)).
Proof.
  intros Hi Hbody.
  assert (Hc : debug_context body root = (Raises e, root2)).
  { unfold debug_context. unfold lbind at 1. unfold get_console_level.
    rewrite Hi. cbn [obind]. unfold lbind at 1.
    rewrite (debug_mode_set root i true Hi). unfold lbind at 1.
    rewrite Hbody. reflexivity. }
  split; [exact Hc|]. split.
  - unfold debug_wrapper, lbind. rewrite Hc. reflexivity.
  - intros ->.
    assert (Hl : level_of (set_level root i logging_DEBUG) i = logging_DEBUG).
    { apply level_of_set_level. eapply console_in_range; eauto. }
    split; [exact Hl|].
    rewrite (debug_mode_ask _ i)
      by (rewrite get_console_handler_set_level; exact Hi).
    rewrite Hl. reflexivity.
Qed.

Lemma debug_context_not_restored_on_exception_witness :
  debug_context (fun root => (@Raises nat ValueError, root)) two_handlers
  = (Raises ValueError, set_level two_handlers 1 logging_DEBUG) /\
  debug_wrapper (fun root => (@Raises nat ValueError, root)) two_handlers
  = (Raises ValueError, set_level two_handlers 1 logging_DEBUG) /\
  (set_level two_handlers 1 logging_DEBUG
   = set_level two_handlers 1 logging_DEBUG ->
   level_of (set_level two_handlers 1 logging_DEBUG) 1 = logging_DEBUG /\
   debug_mode None (set_level two_handlers 1 logging_DEBUG)
   = (Returns (Some true), set_level two_handlers 1 logging_DEBUG)).
Proof.
  apply (debug_context_not_restored_on_exception two_handlers 1 nat
           (fun root => (@Raises nat ValueError, root)) ValueError
           (set_level two_handlers 1 logging_DEBUG)); reflexivity.
Defined.

(* ================================================================== *)
(** ** More on the composite expansion (namespace.py) *)

Section Discovery.

Variable h : heap.

Lemma reachable_trans x y z :
  reachable h x y -> reachable h y z -> reachable h x z.
Proof.
  induction 1 as [x|x w y Hw Hr IH]; [auto|].
  intros Hz. eapply reach_child; eauto.
Qed.

(** What a run adds to the cache is reachable from the object it was
    called on. *)
Lemma runs_reach :
  (forall obj st st', acc_run h obj st st' ->
     forall x, In x (snd st') -> In x (snd st) \/ reachable h obj x) /\
  (forall obj comps st st', comps_run h obj comps st st' ->
     incl comps (component_names h obj) ->
     forall x, In x (snd st') ->
       In x (snd st) \/
       exists y, In y (children h obj) /\ reachable h y x).
Proof.
  apply acc_comps_ind.
  - intros obj st _ x Hx. left. exact Hx.
  - intros obj st st2 s3 _ _ IH _ x Hx. cbn [fst snd] in *.
    destruct (IH (incl_refl _) x Hx) as [[<-|Hold]|[y [Hy Hr]]].
    + right. apply reach_here.
    + left. exact Hold.
    + right. eapply reach_child; eauto.
  - intros obj st _ x Hx. left. exact Hx.
  - intros obj cn rest sub st st1 st2 Hg _ IH1 _ IH2 Hincl x Hx.
    assert (Hsub : In sub (children h obj)).
    { apply in_children. exists cn. split; [|exact Hg].
      apply Hincl. left. reflexivity. }
    destruct (IH2 (fun c Hc => Hincl c (or_intror Hc)) x Hx) as [Hx1|Hr];
      [|right; exact Hr].
    destruct (IH1 x Hx1) as [Hx0|Hr]; [left; exact Hx0|].
    right. exists sub. split; assumption.
Qed.


(** A name a run binds was free in the pool the run started from. *)
Lemma runs_fresh :
  (forall obj st st', acc_run h obj st st' ->
     exists added, fst st' = fst st ++ added /\
       forall n o, In (n, o) added -> mem (fst st) n = false) /\
  (forall obj comps st st', comps_run h obj comps st st' ->
     exists added, fst st' = fst st ++ added /\
       forall n o, In (n, o) added -> mem (fst st) n = false).
Proof.
  apply runs_preorder.
  - intros st. exists []. rewrite app_nil_r. split; [reflexivity|].
    intros ? ? [].
  - intros a b c [ad1 [E1 F1]] [ad2 [E2 F2]].
    exists (ad1 ++ ad2). rewrite E2, E1, app_assoc. split; [reflexivity|].
    intros n o Hin. apply in_app_or in Hin. destruct Hin as [Hin|Hin].
    + eapply F1; eauto.
    + pose proof (F2 n o Hin) as Hm. rewrite E1, mem_app in Hm.
      apply orb_false_iff in Hm. tauto.
  - intros obj s c _. exists []. rewrite app_nil_r. split; [reflexivity|].
    intros ? ? [].
  - intros obj s c s' _ Hb.
    destruct (bind_name_inv h _ _ _ Hb) as [n [_ [[_ ->]|[Hm ->]]]].
    + exists []. rewrite app_nil_r. split; [reflexivity|]. intros ? ? [].
    + exists [(n, obj)]. split; [reflexivity|].
      intros n' o [[= <- <-]|[]]. exact Hm.
Qed.

Lemma items_fresh items st st' :
  items_run h items st st' ->
  exists added, fst st' = fst st ++ added /\
    forall n o, In (n, o) added -> mem (fst st) n = false.
Proof.
  revert items st st'. apply items_preorder.
  - intros st. exists []. rewrite app_nil_r. split; [reflexivity|].
    intros ? ? [].
  - intros a b c [ad1 [E1 F1]] [ad2 [E2 F2]].
    exists (ad1 ++ ad2). rewrite E2, E1, app_assoc. split; [reflexivity|].
    intros n o Hin. apply in_app_or in Hin. destruct Hin as [Hin|Hin].
    + eapply F1; eauto.
    + pose proof (F2 n o Hin) as Hm. rewrite E1, mem_app in Hm.
      apply orb_false_iff in Hm. tauto.
  - apply runs_fresh.
Qed.

Lemma items_reach items st st' :
  items_run h items st st' ->
  forall x, In x (snd st') ->
    In x (snd st) \/
    exists n d, In (n, d) items /\
                instance_of (deref h d) Device = true /\ reachable h d x.
Proof.
  induction 1 as [st|name obj rest st st1 st2 Hd Hacc Hrun IH
                    |name obj rest st st2 Hd Hrun IH]; intros x Hx.
  - left. exact Hx.
  - destruct (IH x Hx) as [Hx1|[n [d [Hin [Hdev Hr]]]]].
    + destruct (proj1 runs_reach _ _ _ Hacc x Hx1) as [Hx0|Hr];
        [left; exact Hx0|].
      right. exists name, obj. split; [left; reflexivity|]. split; assumption.
    + right. exists n, d. split; [right; exact Hin|]. split; assumption.
  - destruct (IH x Hx) as [Hx1|[n [d [Hin [Hdev Hr]]]]]; [left; exact Hx1|].
    right. exists n, d. split; [right; exact Hin|]. split; assumption.
Qed.


End Discovery.

Section Failures.

Variable h : heap.





(** What a run adds: the new bindings are those of objects the run itself
    put in the cache, none of which was there before. *)
Lemma runs_new :
  (forall obj st st', acc_run h obj st st' ->
     exists added new,
       fst st' = fst st ++ added /\ snd st' = new ++ snd st /\
       (forall x, In x new -> ~ In x (snd st)) /\
       (forall n o, In (n, o) added -> In o new)) /\
  (forall obj comps st st', comps_run h obj comps st st' ->
     exists added new,
       fst st' = fst st ++ added /\ snd st' = new ++ snd st /\
       (forall x, In x new -> ~ In x (snd st)) /\
       (forall n o, In (n, o) added -> In o new)).
Proof.
  apply acc_comps_ind.
  - intros obj st _. exists [], []. rewrite app_nil_r.
    repeat split; try reflexivity; intros; contradiction.
  - intros obj [s c] [s2 c2] s3 Hc _ [added [new [Ha [Hn [Hfresh Hin]]]]] Hb.
    cbn [fst snd] in *.
    assert (Hobj : ~ In obj c).
    { intros Hi. apply (in_cache_In h) in Hi. congruence. }
    assert (Hnew : forall x, In x (new ++ [obj]) -> ~ In x c).
    { intros x Hx. apply in_app_or in Hx. destruct Hx as [Hx|[<-|[]]].
      - intros Hi. apply (Hfresh x Hx). right. exact Hi.
      - exact Hobj. }
    destruct (bind_name_inv h _ _ _ Hb) as [n [_ [[_ ->]|[_ ->]]]].
    + exists added, (new ++ [obj]). rewrite Hn, <- app_assoc.
      repeat split; try assumption.
      intros m o Hm. apply in_or_app. left. eapply Hin; eauto.
    + exists (added ++ [(n, obj)]), (new ++ [obj]).
      rewrite Ha, Hn, <- !app_assoc. repeat split; try assumption.
      intros m o Hm. apply in_app_or in Hm. apply in_or_app.
      destruct Hm as [Hm|[[= <- <-]|[]]]; [left; eapply Hin; eauto|].
      right. left. reflexivity.
  - intros obj st. exists [], []. rewrite app_nil_r.
    repeat split; try reflexivity; intros; contradiction.
  - intros obj cn rest sub st st1 st2 _ _
      [ad1 [n1 [Ha1 [Hn1 [Hf1 Hi1]]]]] _ [ad2 [n2 [Ha2 [Hn2 [Hf2 Hi2]]]]].
    exists (ad1 ++ ad2), (n2 ++ n1).
    rewrite Ha2, Ha1, Hn2, Hn1, !app_assoc. repeat split.
    + intros x Hx. apply in_app_or in Hx. destruct Hx as [Hx|Hx].
      * intros Hi. apply (Hf2 x Hx). rewrite Hn1.
        apply in_or_app. right. exact Hi.
      * apply Hf1. exact Hx.
    + intros m o Hm. apply in_app_or in Hm. apply in_or_app.
      destruct Hm as [Hm|Hm]; [right; eapply Hi1; eauto|left; eapply Hi2; eauto].
Qed.

End Failures.

(** X7.  What the composite expansion adds to a pool: only bindings of
    objects reachable from a [Device] the pool binds, each under its
    canonical name, and only under names the pool did not bind. *)
Theorem expansion_adds_reachable_components h fuel (s s' : Scope) :
  is_dict s ->
  expand h fuel s = Returns s' ->
  exists added,
    s' = s ++ added /\
    forall n o, In (n, o) added ->
      obj_name (deref h o) = Some n /\ lookup s n = None /\ involved h s o.
Proof.
  intros Hd He. unfold expand in He.
  destruct (expand_items h fuel s (s, [])) as [[S C]| | |] eqn:Hrun;
    simpl in He; try discriminate.
  injection He as <-. apply expand_items_sound in Hrun.
  destruct (items_frame h _ _ _ Hrun) as [[added [Hadd Hcan]] _].
  destruct (items_fresh h _ _ _ Hrun) as [added' [Hadd' Hfresh]].
  cbn [fst snd] in *.
  assert (added' = added).
  { apply (app_inv_head s). congruence. }
  subst added'. exists added. split; [exact Hadd|].
  intros n o Hin. destruct (Hcan n o Hin) as [Hn HC].
  split; [exact Hn|]. split.
  - pose proof (Hfresh n o Hin) as Hm. unfold mem in Hm.
    destruct (lookup s n); [discriminate|reflexivity].
  - destruct (items_reach h _ _ _ Hrun o HC) as [[]|[m [d [Hmd [Hdev Hr]]]]].
    exists m, d. split; [apply In_lookup; assumption|]. split; assumption.
Qed.

Lemma expansion_adds_reachable_components_witness :
  exists added,
    [("x", 0); ("b", 1); ("a", 0)] = [("x", 0)] ++ added /\
    forall n o, In (n, o) added ->
      obj_name (deref cycle_heap o) = Some n /\
      lookup [("x", 0)] n = None /\ involved cycle_heap [("x", 0)] o.
Proof.
  apply (expansion_adds_reachable_components cycle_heap 3 [("x", 0)]).
  - unfold is_dict. simpl. repeat constructor. intros [].
  - reflexivity.
Defined.



(** X9.  The components are bound before their parent: a visit of an object
    that was not cached binds, first, objects reached through the components
    of the object, and then, last of all, the object itself under its
    canonical name unless that name is bound by then. *)
Theorem components_are_bound_before_parent h fuel obj (s : Scope) c s' c' :
  in_cache h obj c = false ->
  accumulate h fuel obj (s, c) = Returns (s', c') ->
  exists n below,
    obj_name (deref h obj) = Some n /\
    (s' = s ++ below ++ [(n, obj)] /\ mem (s ++ below) n = false \/
     s' = s ++ below /\ mem (s ++ below) n = true) /\
    forall m x, In (m, x) below ->
      x <> obj /\ exists y, In y (children h obj) /\ reachable h y x.
Proof.
  intros Hc Hacc. apply accumulate_sound in Hacc.
  inversion Hacc as [? ? Hin|? ? st2 s3 _ Hrun Hb]; subst.
  - cbn [snd] in Hin. congruence.
  - cbn [fst snd] in *.
    destruct (proj2 (runs_new h) _ _ _ _ Hrun)
      as [below [new [Ha [Hn [Hfresh Hnew]]]]].
    cbn [fst snd] in *.
    destruct (bind_name_inv h _ _ _ Hb) as [n [Hname Hcases]].
    exists n, below. split; [exact Hname|]. split.
    + rewrite Ha in Hcases.
      destruct Hcases as [[Hm ->]|[Hm ->]];
        [right|left; rewrite <- app_assoc]; auto.
    + intros m x Hx. pose proof (Hnew m x Hx) as Hxn.
      pose proof (Hfresh x Hxn) as Hnot. split.
      * intros ->. apply Hnot. left. reflexivity.
      * destruct (proj2 (runs_reach h) _ _ _ _ Hrun (incl_refl _) x)
          as [Hold|Hr]; [rewrite Hn; apply in_or_app; left; exact Hxn| |exact Hr].
        contradiction.
Qed.

Lemma components_are_bound_before_parent_witness :
  exists n below,
    obj_name (deref twins_heap 0) = Some n /\
    ([("x", 1); ("d", 0)] = [] ++ below ++ [(n, 0)] /\
     mem ([] ++ below) n = false \/
     [("x", 1); ("d", 0)] = [] ++ below /\ mem ([] ++ below) n = true) /\
    forall m x, In (m, x) below ->
      x <> 0 /\ exists y, In y (children twins_heap 0) /\
                          reachable twins_heap y x.
Proof.
  apply (components_are_bound_before_parent twins_heap 3 0 [] [] _ [1; 0]);
    reflexivity.
Defined.

(* ================================================================== *)
(** ** More on the type-filtered namespace (namespace.py) *)

(** The last loop of [class_namespace] for a type, over a pool with one
    binding per name: the instances, in the order of the pool, and one
    record of the log for each. *)
Lemma select_type h c items :
  forall acc t,
    NoDup (keys acc ++ keys items) ->
    select h (VType c) items (flat acc) t =
    (Returns
       (flat (acc ++ filter (fun p => instance_of (deref h (snd p)) c) items)),
     t ++ map (fun p => Log DEBUG ("Include " ++ fst p ++ " in cls=%s namespace"))
              (filter (fun p => instance_of (deref h (snd p)) c) items)).
Proof.
  induction items as [|[name obj] rest IH]; intros acc t Hnd.
  - simpl. rewrite !app_nil_r. reflexivity.
  - simpl. unfold mbind at 1. unfold lift, include. simpl.
    destruct (instance_of (deref h obj) c) eqn:Hf.
    + unfold mbind, emit. unfold ns_setattr. rewrite dict_set_fresh.
      * change (flat acc ++ [(name, Obj obj)]) with
          (flat acc ++ flat [(name, obj)]).
        rewrite <- flat_app, IH.
        -- simpl. rewrite <- !app_assoc. reflexivity.
        -- unfold keys in *. rewrite map_app, <- app_assoc. exact Hnd.
      * apply mem_false_iff. rewrite keys_flat.
        apply NoDup_remove_2 in Hnd. intros Hin. apply Hnd.
        apply in_or_app. left. exact Hin.
    + apply IH. apply NoDup_remove_1 in Hnd. exact Hnd.
Qed.

(** X10.  Given a type, the build returns whenever the expansion does; the
    namespace binds exactly the instances of the type among the bindings of
    the expanded scope, in its order; the log receives the opening record
    and one record for each binding, and the interpreter is not asked
    anything. *)
Theorem type_namespace_holds_the_instances h I fuel c (scope : Scope) t expanded :
  is_dict scope ->
  expand h fuel scope = Returns expanded ->
  class_namespace h I fuel (VType c) scope t =
  (Returns
     (flat (filter (fun p => instance_of (deref h (snd p)) c) expanded)),
   t ++ Log DEBUG "Create class_namespace cls=%s, scope=%s"
     :: map (fun p => Log DEBUG ("Include " ++ fst p ++ " in cls=%s namespace"))
            (filter (fun p => instance_of (deref h (snd p)) c) expanded)).
Proof.
  intros Hd He.
  pose proof (expand_is_dict h fuel scope expanded Hd He) as Hde.
  unfold class_namespace, resolve_cls, mbind, emit, ret, lift.
  rewrite He.
  change (@nil (string * NsItem)) with (flat []).
  rewrite select_type by exact Hde.
  rewrite <- app_assoc. reflexivity.
Qed.

Lemma type_namespace_holds_the_instances_witness :
  class_namespace cycle_heap
    (mkInterp (fun _ => Raises ImportError) (fun _ => Raises NameError)
              (fun _ => Raises TypeError))
    3 (VType Device) [("x", 0)] [] =
  (Returns
     (flat (filter (fun p => instance_of (deref cycle_heap (snd p)) Device)
              [("x", 0); ("b", 1); ("a", 0)])),
   [] ++ Log DEBUG "Create class_namespace cls=%s, scope=%s"
      :: map (fun p => Log DEBUG ("Include " ++ fst p ++ " in cls=%s namespace"))
             (filter (fun p => instance_of (deref cycle_heap (snd p)) Device)
                [("x", 0); ("b", 1); ("a", 0)])).
Proof.
  apply type_namespace_holds_the_instances.
  - unfold is_dict. simpl. repeat constructor. intros [].
  - reflexivity.
Defined.

(** X11.  A type given by its name builds the namespace the type itself
    builds: when [find_class] resolves the string to a value that is not a
    string, the build ends as the build called with that value. *)
Theorem type_by_name_builds_the_same_namespace h I fuel s v (scope : Scope) t t' :
  s <> "function" ->
  fst (find_class I s []) = Returns v ->
  (forall s', v <> VStr s') ->
  fst (class_namespace h I fuel (VStr s) scope t) =
  fst (class_namespace h I fuel v scope t').
Proof.
  intros Hs Hv Hnotstr. apply String.eqb_neq in Hs.
  assert (Hsel : forall expanded a b,
            fst (select h v expanded [] a) = fst (select h v expanded [] b)).
  { intros expanded a b.
    rewrite (oblivious_outcome _ _ a (oblivious_select h v expanded [])).
    rewrite (oblivious_outcome _ _ b (oblivious_select h v expanded [])).
    reflexivity. }
  destruct v as [s0|c|l|o]; [exfalso; apply (Hnotstr s0); reflexivity| | |];
    unfold class_namespace, resolve_cls, try_except, mbind, emit, ret, lift;
    rewrite Hs;
    rewrite (oblivious_find_class I s (t ++ [Log DEBUG _])), Hv;
    cbn [fst snd];
    destruct (expand h fuel scope) as [expanded| | |]; try reflexivity;
    apply Hsel.
Qed.

Lemma type_by_name_builds_the_same_namespace_witness :
  let I := mkInterp (fun _ => Raises ImportError)
                    (fun _ => Returns (VType Device))
                    (fun _ => Raises TypeError) in
  fst (class_namespace cycle_heap I 3 (VStr "Device") [("x", 0)] []) =
  fst (class_namespace cycle_heap I 3 (VType Device) [("x", 0)] []).
Proof.
  intros I.
  apply (type_by_name_builds_the_same_namespace
           cycle_heap I 3 "Device" (VType Device) [("x", 0)] [] []).
  - discriminate.
  - reflexivity.
  - discriminate.
Defined.

(* ================================================================== *)
(** ** More on the metadata tree (namespace.py) *)

Lemma levels_space items : levels (Space items) = S (depth items).
Proof.
  reflexivity.
Qed.

Lemma depth_dict_set (ns : IterableNamespace) k v :
  depth (dict_set ns k v) <= Nat.max (depth ns) (levels v).
Proof.
  induction ns as [|[k' v'] rest IH]; cbn [dict_set depth snd].
  - lia.
  - destruct (String.eqb k k'); cbn [depth snd]; lia.
Qed.

Lemma depth_lookup (ns : IterableNamespace) k v :
  lookup ns k = Some v -> levels v <= depth ns.
Proof.
  induction ns as [|[k' v'] rest IH]; cbn [lookup depth snd]; [discriminate|].
  destruct (String.eqb k k').
  - intros [= ->]. lia.
  - intros H. specialize (IH H). lia.
Qed.

Lemma key_path_length keys : List.length (key_path keys) <= List.length keys.
Proof.
  induction keys as [|[|k|z] rest IH]; simpl; lia.
Qed.

(** Placing an object adds no more levels than keys are consumed. *)
Lemma place_depth obj keys :
  forall ns name ns',
    place ns keys name obj = Returns ns' ->
    depth ns' <= Nat.max (depth ns) (List.length (key_path keys)).
Proof.
  induction keys as [|key rest IH]; intros ns name ns' Hp.
  - cbn [place] in Hp. injection Hp as <-. unfold ns_setattr.
    pose proof (depth_dict_set ns name (Obj obj)) as Hset.
    cbn [levels] in Hset. lia.
  - destruct key as [|k|z].
    + cbn [place] in Hp. injection Hp as <-. unfold ns_setattr.
      pose proof (depth_dict_set ns name (Obj obj)) as Hset.
      cbn [levels] in Hset. lia.
    + cbn [place] in Hp.
      set (upper := if ns_hasattr ns k then ns
                    else ns_setattr ns k (Space [])) in *.
      assert (Hup : depth upper <= Nat.max (depth ns) 1).
      { unfold upper. destruct (ns_hasattr ns k); [lia|].
        pose proof (depth_dict_set ns k (Space [])) as Hset.
        rewrite levels_space in Hset. cbn [depth] in Hset.
        unfold ns_setattr. lia. }
      destruct (ns_getattr upper k) as [[o|sub]|] eqn:Hg; try discriminate.
      destruct (place sub rest (strip_prefix name k) obj) as [sub'| | |] eqn:Hs;
        simpl in Hp; try discriminate.
      injection Hp as <-.
      pose proof (IH _ _ _ Hs) as Hsub.
      pose proof (depth_lookup upper k _ Hg) as Hl.
      rewrite levels_space in Hl.
      pose proof (depth_dict_set upper k (Space sub')) as Hset.
      rewrite levels_space in Hset. unfold ns_setattr.
      cbn [key_path List.length]. lia.
    + simpl in Hp. discriminate.
Qed.

Lemma raw_keys_length h md name obj raw :
  raw_keys h md name obj = Some raw -> List.length raw <= List.length md.
Proof.
  unfold raw_keys. destruct (obj_md (deref h obj)).
  - intros [= <-]. rewrite length_map. lia.
  - destruct (negb (PyStr.contains "_" name)); [discriminate|].
    intros [= <-]. rewrite length_map. apply firstn_le_length.
Qed.

Lemma add_object_depth h md ns name obj t ns' t' :
  add_object h md ns name obj t = (Returns ns', t') ->
  depth ns' <= Nat.max (depth ns) (List.length md).
Proof.
  unfold add_object.
  destruct (raw_keys h md name obj) as [raw|] eqn:Hraw.
  - pose proof (raw_keys_length h md name obj raw Hraw) as Hlen.
    assert (Hplace : forall ns'',
              place ns (map lower_key raw) name obj = Returns ns'' ->
              depth ns'' <= Nat.max (depth ns) (List.length md)).
    { intros ns'' Hp. pose proof (place_depth obj _ _ _ _ Hp) as Hd.
      pose proof (key_path_length (map lower_key raw)) as Hk.
      rewrite length_map in Hk. lia. }
    destruct raw as [|[|k|z] rest].
    + discriminate.
    + intros [= <- _]. lia.
    + unfold mbind, emit, lift. intros [= Hp _]. apply Hplace; assumption.
    + unfold mbind, emit, lift. simpl. discriminate.
  - intros [= <- _]. lia.
Qed.

Lemma add_objects_depth h md items :
  forall ns t ns' t',
    add_objects h md items ns t = (Returns ns', t') ->
    depth ns' <= Nat.max (depth ns) (List.length md).
Proof.
  induction items as [|[name obj] rest IH]; simpl; intros ns t ns' t' H.
  - injection H as <- _. lia.
  - unfold mbind in H.
    destruct (add_object h md ns name obj t) as [[ns1| | |] t1] eqn:Ha;
      try discriminate.
    pose proof (add_object_depth _ _ _ _ _ _ _ _ Ha) as H1.
    pose proof (IH _ _ _ _ H) as H2. lia.
Qed.

(** X13.  The tree [metadata_namespace] returns is never deeper than the
    list of fields is long: below the root there are at most [len(md)]
    levels of namespaces. *)
Theorem metadata_tree_depth_bounded h md (scope_objs : Scope) t ns t' :
  metadata_namespace h md scope_objs t = (Returns ns, t') ->
  depth ns <= List.length md.
Proof.
  unfold metadata_namespace, mbind, emit. intros H.
  pose proof (add_objects_depth _ _ _ _ _ _ _ H) as Hd. simpl in Hd. lia.
Qed.

Lemma metadata_tree_depth_bounded_witness :
  depth [("tst", Space [("det", Space [("1", Obj 1)])])]
  <= List.length ["beamline"; "stand"].
Proof.
  apply (metadata_tree_depth_bounded functions_heap ["beamline"; "stand"]
           [("tst_det_1", 1)] []
           [("tst", Space [("det", Space [("1", Obj 1)])])]
           [Log DEBUG "Create metadata_namespace md=%s, scope=%s";
            Log DEBUG "Add tst_det_1 to metadata namespace"]).
  reflexivity.
Defined.

Lemma add_objects_no_fields h items :
  forall ns t,
    add_objects h [] items ns t =
    (if existsb (classifiable h) items then Raises IndexError else Returns ns,
     t).
Proof.
  induction items as [|[name obj] rest IH]; intros ns t; [reflexivity|].
  cbn [add_objects existsb]. unfold mbind, add_object, raw_keys, classifiable.
  cbn [fst snd].
  destruct (obj_md (deref h obj)) as [record|]; [reflexivity|].
  destruct (PyStr.contains "_" name); [reflexivity|].
  cbn [negb orb]. unfold ret. apply IH.
Qed.

(** X14.  With an empty list of fields [metadata_namespace] raises
    [IndexError] as soon as the pool binds an object that has a metadata
    record or a name that holds an underscore; otherwise it returns the
    empty namespace. *)
Theorem metadata_namespace_without_fields h (scope_objs : Scope) t :
  metadata_namespace h [] scope_objs t =
  (if existsb (classifiable h) scope_objs
   then Raises IndexError else Returns [],
   t ++ [Log DEBUG "Create metadata_namespace md=%s, scope=%s"]).
Proof.
  unfold metadata_namespace, mbind, emit. apply add_objects_no_fields.
Qed.

Lemma add_object_passed_over h field fields ns name obj t :
  passed_over h field (name, obj) = true ->
  add_object h (field :: fields) ns name obj t = (Returns ns, t).
Proof.
  unfold passed_over, add_object, raw_keys. cbn [fst snd].
  destruct (obj_md (deref h obj)) as [record|].
  - cbn [map]. destruct (lookup record field) as [[|s|z]|];
      try discriminate; reflexivity.
  - intros ->. reflexivity.
Qed.

Lemma add_objects_passed_over h field fields items :
  forall ns t,
    add_objects h (field :: fields) items ns t =
    add_objects h (field :: fields)
      (filter (fun p => negb (passed_over h field p)) items) ns t.
Proof.
  induction items as [|[name obj] rest IH]; intros ns t; [reflexivity|].
  cbn [filter]. destruct (passed_over h field (name, obj)) eqn:Hp; cbn [negb].
  - cbn [add_objects]. unfold mbind at 1.
    rewrite (add_object_passed_over h field fields ns name obj t Hp).
    apply IH.
  - cbn [add_objects]. unfold mbind.
    destruct (add_object h (field :: fields) ns name obj t) as [[ns1| | |] t1];
      try reflexivity.
    apply IH.
Qed.

(** X15.  The bindings [metadata_namespace] passes over play no part in the
    build: an object whose metadata record has no value, or [None], for the
    first field, and an object without record whose name holds no
    underscore, can be taken out of the pool without any change to the tree
    or to the log. *)
Theorem metadata_namespace_ignores_unclassified h field fields (scope_objs : Scope) t :
  metadata_namespace h (field :: fields) scope_objs t =
  metadata_namespace h (field :: fields)
    (filter (fun p => negb (passed_over h field p)) scope_objs) t.
Proof.
  unfold metadata_namespace, mbind, emit. apply add_objects_passed_over.
Qed.

(* ================================================================== *)
(** ** More on the helpers of utils.py *)

Section Paths.

Variable sep : ascii.

Lemma split_not_nil s : PyStr.split sep s <> [].
Proof.
  destruct s as [|c s]; simpl; [discriminate|].
  destruct (Ascii.eqb c sep); [discriminate|].
  destruct (PyStr.split sep s); discriminate.
Qed.

(** [sep.join(s.split(sep)) == s]. *)
Lemma join_split s :
  PyStr.join (String sep EmptyString) (PyStr.split sep s) = s.
Proof.
  unfold PyStr.join. induction s as [|c s IH]; [reflexivity|].
  simpl. destruct (Ascii.eqb_spec c sep) as [->|Hne].
  - destruct (PyStr.split sep s) as [|w ws] eqn:E.
    + exfalso. exact (split_not_nil s E).
    + simpl in *. rewrite IH. reflexivity.
  - destruct (PyStr.split sep s) as [|w ws] eqn:E.
    + exfalso. exact (split_not_nil s E).
    + destruct ws as [|w' ws']; simpl in *; rewrite <- IH; reflexivity.
Qed.

Lemma split_parts_without_sep s :
  Forall (fun w => ~ In sep (list_ascii_of_string w)) (PyStr.split sep s).
Proof.
  induction s as [|c s IH]; simpl.
  - constructor; [intros []|constructor].
  - destruct (Ascii.eqb_spec c sep) as [->|Hne].
    + constructor; [intros []|exact IH].
    + destruct (PyStr.split sep s) as [|w ws]; simpl.
      * constructor; [|constructor]. simpl. intros [H|[]]. congruence.
      * inversion IH as [|? ? Hw Hws]; subst. constructor; [|exact Hws].
        simpl. intros [H|H]; [congruence|exact (Hw H)].
Qed.

Lemma split_without_sep s :
  ~ In sep (list_ascii_of_string s) -> PyStr.split sep s = [s].
Proof.
  induction s as [|c s IH]; simpl; intros Hn; [reflexivity|].
  destruct (Ascii.eqb_spec c sep) as [->|Hne]; [exfalso; auto|].
  rewrite IH by tauto. reflexivity.
Qed.

Lemma split_with_sep s :
  In sep (list_ascii_of_string s) -> 2 <= List.length (PyStr.split sep s).
Proof.
  induction s as [|c s IH]; simpl; intros Hin; [destruct Hin|].
  destruct (Ascii.eqb_spec c sep) as [->|Hne].
  - pose proof (split_not_nil s) as Hnn.
    destruct (PyStr.split sep s); [congruence|simpl; lia].
  - destruct Hin as [Heq|Hin]; [congruence|]. specialize (IH Hin).
    destruct (PyStr.split sep s); simpl in *; lia.
Qed.

End Paths.

Lemma append_assoc_string (a b c : string) :
  ((a ++ b) ++ c = a ++ (b ++ c))%string.
Proof. induction a as [|x a IH]; simpl; [reflexivity|]. rewrite IH. reflexivity. Qed.

(** A joined path of two parts or more is the joined path of all parts but
    the last, the separator, and the last part. *)
Lemma join_removelast_last sep parts :
  2 <= List.length parts ->
  (PyStr.join sep parts
   = PyStr.join sep (removelast parts) ++ sep ++ last parts "")%string.
Proof.
  unfold PyStr.join.
  induction parts as [|x parts IH]; simpl List.length; intros Hlen; [lia|].
  destruct parts as [|y rest]; [simpl in Hlen; lia|].
  destruct rest as [|z rest].
  - reflexivity.
  - assert (H2 : 2 <= List.length (y :: z :: rest)) by (simpl; lia).
    specialize (IH H2).
    change (last (x :: y :: z :: rest) "") with (last (y :: z :: rest) "").
    change (removelast (x :: y :: z :: rest))
      with (x :: removelast (y :: z :: rest)).
    change (String.concat sep (x :: y :: z :: rest))
      with (x ++ sep ++ String.concat sep (y :: z :: rest))%string.
    rewrite IH.
    change (removelast (y :: z :: rest)) with (y :: removelast (z :: rest)).
    change (String.concat sep (x :: y :: removelast (z :: rest)))
      with (x ++ sep ++ String.concat sep (y :: removelast (z :: rest)))%string.
    rewrite !append_assoc_string. reflexivity.
Qed.

Lemma last_in_parts (parts : list string) :
  parts <> [] -> In (last parts "") parts.
Proof.
  induction parts as [|x rest IH]; [congruence|]. intros _.
  destruct rest as [|y rest]; [left; reflexivity|].
  right. apply IH. discriminate.
Qed.

(** X16.  [find_object] cuts its path at the last dot: it imports what
    stands before it and reads the attribute named after it, which holds no
    dot, so that the two, joined by a dot, give the path back; a path
    without dot makes it import the empty module name and read the whole
    path as the attribute. *)
Theorem find_object_cuts_at_the_last_dot I obj_path t :
  exists module_path class_name,
    find_object I obj_path t =
    (module <- import_module I module_path ;;
     module_getattr module class_name,
     t ++ [Import module_path]) /\
    ~ In "."%char (list_ascii_of_string class_name) /\
    (In "."%char (list_ascii_of_string obj_path) ->
     obj_path = (module_path ++ "." ++ class_name)%string) /\
    (~ In "."%char (list_ascii_of_string obj_path) ->
     module_path = "" /\ class_name = obj_path).
Proof.
  exists (PyStr.join "." (removelast (PyStr.split "." obj_path))),
         (last (PyStr.split "." obj_path) "").
  split; [|split; [|split]].
  - unfold find_object, do_import, mbind, emit, lift.
    destruct (import_module I _) as [m| | |]; reflexivity.
  - pose proof (split_parts_without_sep "." obj_path) as Hall.
    rewrite Forall_forall in Hall. apply Hall.
    apply last_in_parts. apply split_not_nil.
  - intros Hin.
    rewrite <- (join_removelast_last "." (PyStr.split "." obj_path))
      by (apply split_with_sep; exact Hin).
    symmetry. apply (join_split "."%char).
  - intros Hn. rewrite (split_without_sep "." obj_path Hn).
    split; reflexivity.
Qed.

Lemma find_object_cuts_at_the_last_dot_witness :
  exists module_path class_name,
    find_object one_module "lib.mod.Thing" [] =
    (module <- import_module one_module module_path ;;
     module_getattr module class_name,
     [] ++ [Import module_path]) /\
    ~ In "."%char (list_ascii_of_string class_name) /\
    "lib.mod.Thing" = (module_path ++ "." ++ class_name)%string.
Proof.
  destruct (find_object_cuts_at_the_last_dot one_module "lib.mod.Thing" [])
    as [mp [cn [Hf [Hcn [Hdot _]]]]].
  exists mp, cn. split; [exact Hf|]. split; [exact Hcn|].
  apply Hdot. simpl. tauto.
Defined.

(** The two nested [try] blocks of [extract_objs], case by case. *)
Lemma load_target_cases I target call_me t :
  load_target I target call_me t =
  match import_module I target with
  | Returns m => (Returns (inl m), t ++ [Import target])
  | Raises e =>
      if is_ImportError e then
        match load_fallback I target call_me (t ++ [Import target]) with
        | (Raises e', t2) =>
            if is_Exception e'
            then (Returns (inr []),
                  t2 ++ [Log ERROR ("Error loading " ++ target)])
            else (Raises e', t2)
        | r => r
        end
      else if is_Exception e
      then (Returns (inr []),
            (t ++ [Import target]) ++ [Log ERROR ("Error loading " ++ target)])
      else (Raises e, t ++ [Import target])
  | OutOfFuel => (OutOfFuel, t ++ [Import target])
  | Unmodelled => (Unmodelled, t ++ [Import target])
  end.
Proof.
  unfold load_target, try_except, do_import.
  unfold mbind at 1 2. unfold emit, lift. cbn [fst snd].
  destruct (import_module I target) as [m|e| |]; try reflexivity.
  destruct (is_ImportError e); [|destruct (is_Exception e); reflexivity].
  change (my_obj <~ find_object I target;;
          (if call_me
           then v <~ do_call I my_obj;;
                ret (inr (dict_set [] (last (PyStr.split "." target) "") v))
           else ret (inr (dict_set [] (last (PyStr.split "." target) "")
                            my_obj))))
    with (load_fallback I target call_me).
  destruct (load_fallback I target call_me (t ++ [Import target]))
    as [[v|e'| |] t2]; reflexivity.
Qed.

Lemma extract_objs_cases I module_name t :
  extract_objs I module_name t =
  match load_target I (fst (import_target module_name))
          (snd (import_target module_name)) t with
  | (Returns (inr objs), t1) => (Returns objs, t1)
  | (Returns (inl module), t1) =>
      (all_kwd <- match mod_all module with
                  | Some (Iterable items) => Returns items
                  | Some NotIterable => Raises TypeError
                  | None =>
                      names <- public_names (mod_dir module) ;;
                      Returns (map VStr names)
                  end ;;
       collect_attrs module all_kwd [], t1)
  | (Raises e, t1) => (Raises e, t1)
  | (OutOfFuel, t1) => (OutOfFuel, t1)
  | (Unmodelled, t1) => (Unmodelled, t1)
  end.
Proof.
  unfold extract_objs. destruct (import_target module_name) as [target call_me].
  cbn [fst snd]. unfold mbind at 1.
  destruct (load_target I target call_me t) as [[[module|objs]| | |] t1];
    try reflexivity.
  unfold mbind, ret, lift.
  destruct (mod_all module) as [[items|]|]; try reflexivity.
  destruct (public_names (mod_dir module)); reflexivity.
Qed.

Lemma oblivious_load_fallback I target call_me :
  oblivious (load_fallback I target call_me).
Proof.
  unfold load_fallback.
  apply oblivious_bind; [apply oblivious_find_object|].
  intros v. destruct call_me; [|apply oblivious_ret].
  apply oblivious_bind; [apply oblivious_do_call|].
  intros w. apply oblivious_ret.
Qed.

(** The fallback logs nothing. *)
Lemma load_fallback_trace I target call_me :
  errors_logged (snd (load_fallback I target call_me [])) = 0.
Proof.
  unfold load_fallback, find_object, do_import, do_call, mbind, emit, lift, ret.
  cbn [app].
  destruct (import_module I _) as [m| | |]; try reflexivity.
  destruct (module_getattr m _) as [v| | |]; try reflexivity.
  destruct call_me; [|reflexivity].
  destruct (py_call I v); reflexivity.
Qed.

(** X17.  A failure to load is kept inside [extract_objs]: when the import
    raises an exception other than [ImportError], or raises [ImportError]
    and the lookup of the object, or the call of it, raises in turn, each
    time with an exception [except Exception] catches, the function returns
    the empty dictionary and logs exactly one error. *)
Theorem extract_objs_contains_loading_errors I module_name t :
  let target := fst (import_target module_name) in
  let call_me := snd (import_target module_name) in
  (exists e, import_module I target = Raises e /\
             is_Exception e = true /\ is_ImportError e = false) \/
  (import_module I target = Raises ImportError /\
   exists e, fst (load_fallback I target call_me []) = Raises e /\
             is_Exception e = true) ->
  fst (extract_objs I module_name t) = Returns [] /\
  errors_logged (snd (extract_objs I module_name t)) = S (errors_logged t).
Proof.
  intros target call_me Hfail.
  rewrite extract_objs_cases, load_target_cases.
  fold target. fold call_me.
  destruct Hfail as [[e [Hi [He Hn]]]|[Hi [e [Hf He]]]]; rewrite Hi.
  - rewrite Hn, He. cbn [fst snd]. split; [reflexivity|].
    unfold errors_logged. rewrite !filter_app, !length_app. simpl. lia.
  - cbn [is_ImportError].
    rewrite (oblivious_load_fallback I target call_me (t ++ [Import target])).
    rewrite Hf, He. cbn [fst snd]. split; [reflexivity|].
    rewrite !errors_logged_app, load_fallback_trace.
    unfold errors_logged. simpl. lia.
Qed.

Lemma extract_objs_contains_loading_errors_witness :
  fst (extract_objs one_module "nowhere" []) = Returns [] /\
  errors_logged (snd (extract_objs one_module "nowhere" []))
  = S (errors_logged []).
Proof.
  apply (extract_objs_contains_loading_errors one_module "nowhere" []).
  right. split; [reflexivity|].
  exists ValueError. split; reflexivity.
Defined.

Lemma public_names_raises names e :
  public_names names = Raises e -> e = IndexError /\ In EmptyString names.
Proof.
  induction names as [|a rest IH]; simpl; [discriminate|].
  destruct a as [|c a'].
  - intros [= <-]. split; [reflexivity|left; reflexivity].
  - destruct (public_names rest) as [tl|e'| |]; simpl; try discriminate.
    intros [= <-]. destruct (IH eq_refl) as [He Hin].
    split; [exact He|right; exact Hin].
Qed.

Lemma public_names_listed names l :
  public_names names = Returns l ->
  forall a, existsb (String.eqb a) l
            = existsb (String.eqb a) names && public a.
Proof.
  revert l. induction names as [|a0 rest IH]; intros l H a.
  - simpl in H. injection H as <-. reflexivity.
  - cbn [public_names] in H. destruct a0 as [|c a0']; [discriminate|].
    destruct (public_names rest) as [tl| | |]; cbn [obind] in H;
      try discriminate.
    injection H as <-. specialize (IH tl eq_refl a).
    cbn [existsb].
    destruct (String.eqb_spec a (String c a0')) as [Heq|Hne].
    + subst a. cbn [public orb] in *.
      destruct (Ascii.eqb c "_"); cbn [negb existsb].
      * rewrite IH. rewrite andb_false_r. reflexivity.
      * rewrite String.eqb_refl. reflexivity.
    + cbn [orb]. destruct (Ascii.eqb c "_"); cbn [existsb].
      * exact IH.
      * apply String.eqb_neq in Hne. rewrite Hne. exact IH.
Qed.

Lemma public_names_sub names l :
  public_names names = Returns l -> forall a, In a l -> In a names.
Proof.
  revert l. induction names as [|a0 rest IH]; simpl; intros l H a Hin.
  - injection H as <-. exact Hin.
  - destruct a0 as [|c a0']; [discriminate|].
    destruct (public_names rest) as [tl| | |]; simpl in H; try discriminate.
    injection H as <-. destruct (Ascii.eqb c "_").
    + right. eapply IH; eauto.
    + destruct Hin as [<-|Hin]; [left; reflexivity|right; eapply IH; eauto].
Qed.

Lemma collect_attrs_raises m all_kwd :
  forall objs e,
    collect_attrs m all_kwd objs = Raises e ->
    e = AttributeError /\
    (exists a, In (VStr a) all_kwd /\ lookup (mod_attrs m) a = None) \/
    e = TypeError /\
    (exists v, In v all_kwd /\ is_name v = false).
Proof.
  induction all_kwd as [|attr rest IH]; intros objs e H; [discriminate|].
  assert (Hrest : forall objs',
            collect_attrs m rest objs' = Raises e ->
            e = AttributeError /\
            (exists a, In (VStr a) (attr :: rest) /\
                       lookup (mod_attrs m) a = None) \/
            e = TypeError /\
            (exists v, In v (attr :: rest) /\ is_name v = false)).
  { intros objs' H'.
    destruct (IH _ _ H') as [[He [a [Hin Ha]]]|[He [v [Hin Hv]]]].
    - left. split; [exact He|]. exists a. split; [right; exact Hin|exact Ha].
    - right. split; [exact He|]. exists v. split; [right; exact Hin|exact Hv]. }
  destruct attr as [a|c|l|o]; cbn [collect_attrs] in H;
    try (injection H as <-; right; split; [reflexivity|];
         eexists; split; [left; reflexivity|reflexivity]).
  unfold module_getattr in H.
  destruct (lookup (mod_attrs m) a) as [v|] eqn:Hl; cbn [obind] in H.
  - eapply Hrest; eauto.
  - injection H as <-. left. split; [reflexivity|].
    exists a. split; [left; reflexivity|exact Hl].
Qed.

Lemma collect_attrs_lookup m all_kwd :
  forall objs d,
    collect_attrs m all_kwd objs = Returns d ->
    forall a, lookup d a =
              if existsb (names_item a) all_kwd then lookup (mod_attrs m) a
              else lookup objs a.
Proof.
  induction all_kwd as [|attr rest IH]; intros objs d H a.
  - simpl in H. injection H as <-. reflexivity.
  - destruct attr as [n|c|l|o]; cbn [collect_attrs] in H; try discriminate.
    unfold module_getattr in H.
    destruct (lookup (mod_attrs m) n) as [v|] eqn:Hl; cbn [obind] in H;
      [|discriminate].
    rewrite (IH _ _ H a). cbn [existsb names_item].
    destruct (String.eqb_spec a n) as [Heq|Hne]; cbn [orb].
    + subst a. rewrite lookup_dict_set_same, Hl.
      destruct (existsb (names_item n) rest); reflexivity.
    + rewrite lookup_dict_set_other by congruence. reflexivity.
Qed.

Lemma existsb_names_item a names :
  existsb (names_item a) (map VStr names) = existsb (String.eqb a) names.
Proof.
  induction names as [|n rest IH]; simpl; [reflexivity|].
  rewrite IH. reflexivity.
Qed.

(** The fallback returns a dictionary, never a module. *)
Lemma load_fallback_not_module I target call_me t :
  forall m, fst (load_fallback I target call_me t) <> Returns (inl m).
Proof.
  intros m. unfold load_fallback. unfold mbind at 1.
  destruct (find_object I target t) as [[v| | |] t1]; cbn [fst];
    try discriminate.
  destruct call_me; [|discriminate].
  unfold mbind, ret. destruct (do_call I v t1) as [[w| | |] t2]; discriminate.
Qed.

(** X18.  What [extract_objs] lets through: an exception raised while
    loading that [except Exception] does not catch, or, once the module is
    imported, [IndexError] for an empty name in [dir(module)],
    [AttributeError] for a collected name that is not an attribute of the
    module, and [TypeError] for an [__all__] that cannot be iterated or that
    holds something that is not a string. *)
Theorem extract_objs_raises_only I module_name t e :
  fst (extract_objs I module_name t) = Raises e ->
  is_Exception e = false \/
  exists m,
    import_module I (fst (import_target module_name)) = Returns m /\
    (e = IndexError /\ mod_all m = None /\ In EmptyString (mod_dir m) \/
     e = AttributeError /\
     (exists a, lookup (mod_attrs m) a = None /\
                match mod_all m with
                | Some (Iterable items) => In (VStr a) items
                | Some NotIterable => False
                | None => In a (mod_dir m)
                end) \/
     e = TypeError /\
     match mod_all m with
     | Some (Iterable items) => exists v, In v items /\ is_name v = false
     | Some NotIterable => True
     | None => False
     end).
Proof.
  rewrite extract_objs_cases, load_target_cases.
  set (target := fst (import_target module_name)).
  set (call_me := snd (import_target module_name)).
  destruct (import_module I target) as [m|e0| |] eqn:Hi; cbn [fst snd].
  - intros H. right. exists m. split; [reflexivity|].
    destruct (mod_all m) as [[items|]|] eqn:Hall.
    + cbn [obind] in H. right.
      destruct (collect_attrs_raises m items _ _ H)
        as [[He [a [Hin Ha]]]|[He [v [Hin Hv]]]].
      * left. split; [exact He|]. exists a. split; assumption.
      * right. split; [exact He|]. exists v. split; assumption.
    + cbn [obind] in H. injection H as <-. right. right.
      split; [reflexivity|exact Logic.I].
    + destruct (public_names (mod_dir m)) as [l| e1| |] eqn:Hp;
        cbn [obind] in H; try discriminate.
      * destruct (collect_attrs_raises m (map VStr l) _ _ H)
          as [[He [a [Hin Ha]]]|[He [v [Hin Hv]]]].
        -- right. left. split; [exact He|]. exists a. split; [exact Ha|].
           apply in_map_iff in Hin. destruct Hin as [a' [[= ->] Hin]].
           eapply public_names_sub; eauto.
        -- exfalso. apply in_map_iff in Hin. destruct Hin as [a' [<- _]].
           discriminate.
      * injection H as <-. left.
        destruct (public_names_raises _ _ Hp) as [He Hin].
        split; [exact He|]. split; [reflexivity|exact Hin].
  - destruct (is_ImportError e0).
    + pose proof (load_fallback_not_module I target call_me
                    (t ++ [Import target])) as Hnm.
      destruct (load_fallback I target call_me (t ++ [Import target]))
        as [[[m|objs]|e'| |] t2]; cbn [fst] in *; try discriminate.
      { exfalso. apply (Hnm m). reflexivity. }
      destruct (is_Exception e') eqn:He'; cbn [fst]; [discriminate|].
      intros [= <-]. left. exact He'.
    + destruct (is_Exception e0) eqn:He0; cbn [fst]; [discriminate|].
      intros [= <-]. left. exact He0.
  - discriminate.
  - discriminate.
Qed.

Lemma extract_objs_raises_only_witness :
  is_Exception TypeError = false \/
  exists m,
    import_module
      (mkInterp
         (fun _ => Returns (mkModule (Some (Iterable [VStr "there"; VObj 0]))
                              [] [("there", VObj 1)]))
         (fun _ => Raises NameError) (fun _ => Raises TypeError))
      (fst (import_target "mod")) = Returns m /\
    (TypeError = IndexError /\ mod_all m = None /\
     In EmptyString (mod_dir m) \/
     TypeError = AttributeError /\
     (exists a, lookup (mod_attrs m) a = None /\
                match mod_all m with
                | Some (Iterable items) => In (VStr a) items
                | Some NotIterable => False
                | None => In a (mod_dir m)
                end) \/
     TypeError = TypeError /\
     match mod_all m with
     | Some (Iterable items) => exists v, In v items /\ is_name v = false
     | Some NotIterable => True
     | None => False
     end).
Proof.
  apply (extract_objs_raises_only
           (mkInterp
              (fun _ => Returns (mkModule (Some (Iterable [VStr "there"; VObj 0]))
                                   [] [("there", VObj 1)]))
              (fun _ => Raises NameError) (fun _ => Raises TypeError))
           "mod" [] TypeError).
  reflexivity.
Defined.

(** X19.  From a module that imports, [extract_objs] collects the names of
    [__all__] when the module defines it, and otherwise the names of
    [dir(module)] that do not start with an underscore: the dictionary
    returned binds each of these names to the attribute of the module, and
    no other name; nothing is logged and nothing else is asked of the
    interpreter. *)
Theorem extract_objs_collects_listed_names I module_name t m objs :
  import_module I (fst (import_target module_name)) = Returns m ->
  fst (extract_objs I module_name t) = Returns objs ->
  snd (extract_objs I module_name t)
  = t ++ [Import (fst (import_target module_name))] /\
  forall a, lookup objs a =
            if listed m a then lookup (mod_attrs m) a else None.
Proof.
  intros Hi. rewrite extract_objs_cases, load_target_cases, Hi.
  cbn [fst snd]. intros H. split; [reflexivity|]. intros a.
  unfold listed. destruct (mod_all m) as [[items|]|].
  - cbn [obind] in H. rewrite (collect_attrs_lookup m items _ _ H a).
    destruct (existsb (names_item a) items); reflexivity.
  - discriminate.
  - destruct (public_names (mod_dir m)) as [l| | |] eqn:Hp;
      cbn [obind] in H; try discriminate.
    rewrite (collect_attrs_lookup m (map VStr l) _ _ H a).
    rewrite existsb_names_item, (public_names_listed _ _ Hp a).
    destruct (existsb (String.eqb a) (mod_dir m) && public a); reflexivity.
Qed.

Lemma extract_objs_collects_listed_names_witness :
  snd (extract_objs one_module "lib.mod" [])
  = [] ++ [Import (fst (import_target "lib.mod"))] /\
  forall a, lookup [("Thing", VType "lib.mod.Thing")] a =
            if listed (mkModule None ["Thing"; "_hidden"]
                         [("Thing", VType "lib.mod.Thing"); ("_hidden", VObj 0)])
                 a
            then lookup [("Thing", VType "lib.mod.Thing"); ("_hidden", VObj 0)] a
            else None.
Proof.
  apply (extract_objs_collects_listed_names one_module "lib.mod" []
           (mkModule None ["Thing"; "_hidden"]
              [("Thing", VType "lib.mod.Thing"); ("_hidden", VObj 0)])
           [("Thing", VType "lib.mod.Thing")]); reflexivity.
Defined.

Lemma load_fallback_found I target call_me t v :
  fst (find_object I target []) = Returns v ->
  fst (load_fallback I target call_me t) =
  if call_me
  then w <- py_call I v ;;
       Returns (inr [(last (PyStr.split "." target) "", w)])
  else Returns (inr [(last (PyStr.split "." target) "", v)]).
Proof.
  intros Hv. unfold load_fallback. unfold mbind at 1.
  rewrite (oblivious_find_object I target t), Hv.
  destruct call_me; [|reflexivity].
  unfold do_call, mbind, emit, lift, ret.
  destruct (py_call I v); reflexivity.
Qed.

(** X20.  When the import raises [ImportError] and the name is found as an
    object of a module, [extract_objs] returns a dictionary with one
    binding, under the last dotted part of the name: the object itself, or,
    when the name carried the call mark, what calling the object
    returns. *)
Theorem extract_objs_falls_back_on_one_object I module_name t v :
  let target := fst (import_target module_name) in
  let call_me := snd (import_target module_name) in
  import_module I target = Raises ImportError ->
  fst (find_object I target []) = Returns v ->
  (call_me = false ->
   fst (extract_objs I module_name t)
   = Returns [(last (PyStr.split "." target) "", v)]) /\
  (call_me = true ->
   forall w, py_call I v = Returns w ->
   fst (extract_objs I module_name t)
   = Returns [(last (PyStr.split "." target) "", w)]).
Proof.
  intros target call_me Hi Hv.
  pose proof (load_fallback_found I target call_me (t ++ [Import target]) v Hv)
    as Hf.
  assert (Hx : fst (extract_objs I module_name t) =
               match fst (load_fallback I target call_me (t ++ [Import target]))
               with
               | Returns (inr objs) => Returns objs
               | Returns (inl _) => Unmodelled
               | Raises e => if is_Exception e then Returns [] else Raises e
               | OutOfFuel => OutOfFuel
               | Unmodelled => Unmodelled
               end).
  { rewrite extract_objs_cases, load_target_cases.
    fold target. fold call_me. rewrite Hi. cbn [is_ImportError].
    pose proof (load_fallback_not_module I target call_me
                  (t ++ [Import target])) as Hnm.
    destruct (load_fallback I target call_me (t ++ [Import target]))
      as [[[m|objs]|e'| |] t2]; cbn [fst] in *; try reflexivity.
    - exfalso. apply (Hnm m). reflexivity.
    - destruct (is_Exception e'); reflexivity. }
  rewrite Hx, Hf. split.
  - intros ->. reflexivity.
  - intros -> w Hw. rewrite Hw. reflexivity.
Qed.

Lemma extract_objs_falls_back_on_one_object_witness :
  (snd (import_target "lib.mod.Thing") = false ->
   fst (extract_objs one_module "lib.mod.Thing" [])
   = Returns [(last (PyStr.split "." (fst (import_target "lib.mod.Thing"))) "",
               VType "lib.mod.Thing")]) /\
  (snd (import_target "lib.mod.Thing") = true ->
   forall w, py_call one_module (VType "lib.mod.Thing") = Returns w ->
   fst (extract_objs one_module "lib.mod.Thing" [])
   = Returns [(last (PyStr.split "." (fst (import_target "lib.mod.Thing"))) "",
               w)]).
Proof.
  apply (extract_objs_falls_back_on_one_object one_module "lib.mod.Thing" []
           (VType "lib.mod.Thing")); reflexivity.
Defined.
